(** * DocBuilder: the [ingest_file] tool of [src/main.py]

    A shallow embedding of the ingestion pipeline: Python values and
    exceptions, the file system and the Chroma store as the function sees
    them, the function itself as a state-and-exception computation, and
    the properties of the specification stated and settled against it. *)

From Stdlib Require Import Ascii String DecimalString NArith.
From Stdlib.Strings Require Import Byte.
From stdpp Require Import gmap list.

Local Open Scope N_scope.
Local Open Scope nat_scope.

(** ** Python values *)

(** A Python [str] is a sequence of Unicode code points; [len] counts code
    points, slicing cuts between them. *)
Abbreviation pystr := (list N).

(** A [bytes] object. *)
Abbreviation pybytes := (list byte).

(** An ASCII literal of the source as a [str]. *)
Definition lit (s : string) : pystr :=
  map N_of_ascii (list_ascii_of_string s).

(** [str(n)] for a non-negative [int], as f-strings render it. *)
Definition str_of_nat (n : nat) : pystr :=
  lit (NilZero.string_of_uint (Nat.to_uint n)).

(** Truthiness of an optional string: [None] and [""] are falsy. *)
Definition truthy (o : option pystr) : bool :=
  match o with
  | Some (_ :: _) => true
  | _ => false
  end.

(** [s.startswith(p)]. *)
Fixpoint startswith (p s : pystr) : bool :=
  match p, s with
  | [], _ => true
  | _ :: _, [] => false
  | a :: p', b :: s' => (a =? b)%N && startswith p' s'
  end.

(** [s.split(sep)] for a one-character separator: the pieces between the
    occurrences of [sep], of which there is always at least one. *)
Fixpoint split_char (sep : N) (s : pystr) : list pystr :=
  match s with
  | [] => [[]]
  | c :: s' =>
      if (c =? sep)%N then [] :: split_char sep s'
      else match split_char sep s' with
           | piece :: pieces => (c :: piece) :: pieces
           | [] => [[c]]
           end
  end.

(** [repr(s)] as it appears in the text of an [OSError], for a string
    without backslashes and control characters and without both kinds of
    quote: between single quotes, or between double quotes when the
    string has a single quote in it. *)
Definition repr_str (s : pystr) : pystr :=
  if existsb (N.eqb 39) s && negb (existsb (N.eqb 34) s)
  then 34%N :: s ++ [34%N]
  else 39%N :: s ++ [39%N].

(** [xs[-1]] on a list of strings that is known to be non-empty. *)
Definition last_piece (xs : list pystr) : pystr := List.last xs [].

(** ** Exceptions *)

(** The exception classes that matter to the handlers of [ingest_file],
    with the part of Python's class hierarchy that relates them, and the
    two classes with which a store that does not use [ValueError] reports
    a missing collection. *)
Inductive exn_class :=
| BaseException
| KeyboardInterrupt
| Exception
| RuntimeError
| AttributeError
| OSError
| IsADirectoryError
| ValueError
| UnicodeError
| UnicodeDecodeError
| ChromaError
| NotFoundError.

Definition base_class (c : exn_class) : option exn_class :=
  match c with
  | BaseException => None
  | KeyboardInterrupt => Some BaseException
  | Exception => Some BaseException
  | RuntimeError | AttributeError | OSError | ValueError => Some Exception
  | IsADirectoryError => Some OSError
  | UnicodeError => Some ValueError
  | UnicodeDecodeError => Some UnicodeError
  | ChromaError => Some Exception
  | NotFoundError => Some ChromaError
  end.

Definition exn_class_eqb (c d : exn_class) : bool :=
  match c, d with
  | BaseException, BaseException | KeyboardInterrupt, KeyboardInterrupt
  | Exception, Exception | RuntimeError, RuntimeError
  | AttributeError, AttributeError | OSError, OSError
  | IsADirectoryError, IsADirectoryError | ValueError, ValueError
  | UnicodeError, UnicodeError | UnicodeDecodeError, UnicodeDecodeError
  | ChromaError, ChromaError | NotFoundError, NotFoundError => true
  | _, _ => false
  end.

(** [issubclass(c, d)]; the hierarchy above is five classes deep. *)
Fixpoint issubclass_fuel (fuel : nat) (c d : exn_class) : bool :=
  exn_class_eqb c d ||
  match fuel, base_class c with
  | S fuel', Some b => issubclass_fuel fuel' b d
  | _, _ => false
  end.

Definition issubclass : exn_class -> exn_class -> bool := issubclass_fuel 5.

(** A raised exception: its class and [str(e)]. *)
Record exn := mkExn { exn_cls : exn_class; exn_str : pystr }.

(** [isinstance(e, d)], the test an [except d:] clause makes. *)
Definition isinstance (e : exn) (d : exn_class) : bool :=
  issubclass (exn_cls e) d.

(** ** Text decoding *)

Definition in_range (lo hi b : N) : bool := ((lo <=? b) && (b <=? hi))%N.

Definition continuation (b : N) : bool := in_range 0x80 0xBF b.

Definition low_bits (b : N) : N := N.land b 0x3F.

(** The strict UTF-8 decoder: shortest forms only, no surrogates, nothing
    above U+10FFFF.  [None] stands for [UnicodeDecodeError]. *)
Fixpoint utf8_decode (bs : list N) : option pystr :=
  match bs with
  | [] => Some []
  | b0 :: r0 =>
      if (b0 <? 0x80)%N then cons b0 <$> utf8_decode r0
      else if in_range 0xC2 0xDF b0 then
        match r0 with
        | b1 :: r1 =>
            if continuation b1
            then cons (N.lor (N.shiftl (N.land b0 0x1F) 6) (low_bits b1))
                   <$> utf8_decode r1
            else None
        | _ => None
        end
      else if in_range 0xE0 0xEF b0 then
        match r0 with
        | b1 :: b2 :: r2 =>
            if in_range (if (b0 =? 0xE0)%N then 0xA0 else 0x80)
                        (if (b0 =? 0xED)%N then 0x9F else 0xBF) b1
               && continuation b2
            then cons (N.lor (N.shiftl (N.land b0 0x0F) 12)
                         (N.lor (N.shiftl (low_bits b1) 6) (low_bits b2)))
                   <$> utf8_decode r2
            else None
        | _ => None
        end
      else if in_range 0xF0 0xF4 b0 then
        match r0 with
        | b1 :: b2 :: b3 :: r3 =>
            if in_range (if (b0 =? 0xF0)%N then 0x90 else 0x80)
                        (if (b0 =? 0xF4)%N then 0x8F else 0xBF) b1
               && continuation b2 && continuation b3
            then cons (N.lor (N.shiftl (N.land b0 0x07) 18)
                         (N.lor (N.shiftl (low_bits b1) 12)
                            (N.lor (N.shiftl (low_bits b2) 6) (low_bits b3))))
                   <$> utf8_decode r3
            else None
        | _ => None
        end
      else None
  end.

(** Text mode with the default [newline=None]: ["\r\n"] and a lone ["\r"]
    are read as ["\n"]. *)
Fixpoint universal_newlines (s : pystr) : pystr :=
  match s with
  | [] => []
  | c :: rest =>
      if (c =? 13)%N then
        10%N :: match rest with
                | d :: rest' =>
                    if (d =? 10)%N then universal_newlines rest'
                    else universal_newlines rest
                | [] => []
                end
      else c :: universal_newlines rest
  end.

(** What [open(path, "r", encoding="utf-8").read()] yields for a file with
    the given bytes; [None] when it raises [UnicodeDecodeError]. *)
Definition decode_text (data : pybytes) : option pystr :=
  universal_newlines <$> utf8_decode (map Byte.to_N data).

(** ** The store, the file system and the other collaborators *)

(** A metadata record as lines 91-96 and 116-120 build them. *)
Inductive metadata :=
| ChunkMeta (source_file content_type : pystr) (chunk_index total_chunks : nat)
| BinaryMeta (source_file content_type : pystr) (is_binary : bool).

(** A fragment as a collection holds it. *)
Record entry := mkEntry {
  entry_id : pystr;
  entry_document : pystr;
  entry_metadata : metadata;
}.

(** One [collection.add(documents=..., metadatas=..., ids=...)] request. *)
Record add_call := mkAdd {
  add_collection : pystr;
  add_documents : list pystr;
  add_metadatas : list metadata;
  add_ids : list pystr;
}.

(** What [ingest_file] reads of a chunk the chunker returns. *)
Record Chunk := mkChunk { text : pystr }.

Inductive result (A : Type) :=
| Return (a : A)
| Raise (e : exn).
Arguments Return {A} a.
Arguments Raise {A} e.

(** What is at an absolute path. *)
Inductive node :=
| File (data : pybytes)
| Directory.

(** The calls of [ingest_file] into the file system and the store, by
    source line.  Any of them may fail for reasons outside the program. *)
Inductive site :=
| VerifyCollection   (* line 40,  chroma_client.get_collection *)
| PathResolve        (* line 48,  Path(...).expanduser().resolve() *)
| PathExists         (* line 51,  path.exists() *)
| OpenImage          (* line 62,  open(path, "rb") and read *)
| OpenText           (* line 74,  open(path, "r", encoding="utf-8") and read *)
| TextCollection     (* line 101, chroma_client.get_collection *)
| TextAdd            (* line 102, collection.add *)
| OpenBinary         (* line 106, open(path, "rb") and read *)
| BinaryCollection   (* line 112, chroma_client.get_collection *)
| BinaryAdd.         (* line 113, collection.add *)

(** The surroundings of one call: the file system, the type table of
    [mimetypes], the chunker of [chonkie], the identifiers [uuid4] will
    draw, and the failures the file system and the store will answer with. *)
Record World := mkWorld {
  resolve : pystr -> pystr;
  nodes : gmap pystr node;
  guess_type : pystr -> option pystr;
  RecursiveChunker : nat -> result (pystr -> result (list Chunk));
  uuid4 : nat -> pystr;
  fault : site -> option exn;
}.

(** The state a call can change: the global [chroma_client] ([None] until
    [init_chroma] has run) with the fragments of each collection, the
    [add] requests made so far, and how many identifiers were drawn. *)
Record State := mkState {
  chroma_client : option (gmap pystr (list entry));
  add_calls : list add_call;
  uuid_calls : nat;
}.

(** The three shapes of dictionary [ingest_file] returns. *)
Inductive response :=
| ErrorResponse (error : pystr)
| ImageResponse (data : pybytes) (format : pystr)
                (content_type : pystr) (size : nat)
| IngestResponse (content : pystr) (content_type : pystr)
                 (size : nat) (chunks_created : nat).

(** ** Computations *)

(** The state of a running call: the global state and the local variable
    [chunks], which line 131 asks [locals()] about. *)
Record Frame := mkFrame {
  globals : State;
  chunks : option (list Chunk);
}.

Definition M (A : Type) : Type := Frame -> result A * Frame.

Definition ret {A} (a : A) : M A := fun fr => (Return a, fr).

Definition raise {A} (e : exn) : M A := fun fr => (Raise e, fr).

Definition bind {A B} (m : M A) (k : A -> M B) : M B :=
  fun fr =>
    match m fr with
    | (Return a, fr') => k a fr'
    | (Raise e, fr') => (Raise e, fr')
    end.

(** [try: body  except cls as e: handler(e)]. *)
Definition try_except {A} (body : M A) (cls : exn_class)
    (handler : exn -> M A) : M A :=
  fun fr =>
    match body fr with
    | (Return a, fr') => (Return a, fr')
    | (Raise e, fr') =>
        if isinstance e cls then handler e fr' else (Raise e, fr')
    end.

Definition lift {A} (r : result A) : M A :=
  match r with
  | Return a => ret a
  | Raise e => raise e
  end.

Notation "x <- c1 ;; c2" := (bind c1 (fun x => c2))
  (at level 100, c1 at next level, right associativity).
Notation "c1 ;; c2" := (bind c1 (fun _ => c2))
  (at level 100, right associativity).

Definition set_chunks (cs : list Chunk) : M unit :=
  fun fr => (Return tt, {| globals := globals fr; chunks := Some cs |}).

Definition get_chunks : M (option (list Chunk)) :=
  fun fr => (Return (chunks fr), fr).

(** ** The pipeline *)

(** Lines 55-57: a non-empty override is taken as it is, otherwise the
    type is guessed from the path and defaults to the generic one. *)
Definition resolve_content_type (guess : pystr -> option pystr)
    (path : pystr) (content_type : option pystr) : pystr :=
  match content_type with
  | Some (c :: override) => c :: override
  | _ =>
      match guess path with
      | Some (c :: guessed) => c :: guessed
      | _ => lit "application/octet-stream"
      end
  end.

(** Line 60. *)
Definition is_image (content_type : pystr) : bool :=
  truthy (Some content_type) && startswith (lit "image/") content_type.

(** Line 108. *)
Definition binary_placeholder (content_type : pystr) (size : nat) : pystr :=
  lit "<Binary data of type " ++ content_type ++ lit ", size "
    ++ str_of_nat size ++ lit " bytes>".

(** Line 126. *)
Definition truncate_content (content : pystr) : pystr :=
  if 100 <? length content then take 100 content ++ lit "..." else content.

(** The fragments one [add] request appends to a collection. *)
Fixpoint zip_entries (documents : list pystr) (metadatas : list metadata)
    (ids : list pystr) : list entry :=
  match documents, metadatas, ids with
  | d :: ds, m :: ms, i :: is_ => mkEntry i d m :: zip_entries ds ms is_
  | _, _, _ => []
  end.

Section Pipeline.

Variable w : World.

(** A call into the file system or the store: it raises what the world
    has planned for that line, if anything, and otherwise does its work. *)
Definition external {A} (s : site) (work : M A) : M A :=
  fun fr =>
    match fault w s with
    | Some e => (Raise e, fr)
    | None => work fr
    end.

(** Modelled from the spec: the store's existence query of section 6,
    which is not part of this repository.  [chroma_client.get_collection(name)]
    answers for a collection the store holds.  For a missing one section 6
    says that it throws, not what: unless the world says what the store
    raises at that line, it is the [ValueError] line 41 waits for; a store
    that reports a missing collection otherwise is a world whose fault at
    the line is that report. *)
Definition get_collection (s : site) (name : pystr) : M unit :=
  external s (fun fr =>
    match chroma_client (globals fr) with
    | None =>
        (Raise (mkExn AttributeError
           (lit "'NoneType' object has no attribute 'get_collection'")), fr)
    | Some store =>
        match store !! name with
        | Some _ => (Return tt, fr)
        | None =>
            (Raise (mkExn ValueError
               (lit "Collection " ++ name ++ lit " does not exist.")), fr)
        end
    end).

(** Modelled from the spec: the store's [append] of section 6, which is
    not part of this repository.  [collection.add(...)] appends the
    fragments, positionally aligned, to the named collection; the request
    is on record whether or not the store then accepts it. *)
Definition collection_add (s : site) (name : pystr)
    (documents : list pystr) (metadatas : list metadata)
    (ids : list pystr) : M unit :=
  fun fr =>
    let st := globals fr in
    let issued :=
      add_calls st ++ [mkAdd name documents metadatas ids] in
    match fault w s with
    | Some e =>
        (Raise e,
         mkFrame (mkState (chroma_client st) issued (uuid_calls st))
                 (chunks fr))
    | None =>
        (Return tt,
         mkFrame
           (mkState
              (alter (fun old => old ++ zip_entries documents metadatas ids)
                     name <$> chroma_client st)
              issued (uuid_calls st))
           (chunks fr))
    end.

(** [str(uuid.uuid4())]. *)
Definition fresh_uuid : M pystr :=
  fun fr =>
    let st := globals fr in
    (Return (uuid4 w (uuid_calls st)),
     mkFrame (mkState (chroma_client st) (add_calls st) (S (uuid_calls st)))
             (chunks fr)).

Definition path_resolve (file_path : pystr) : M pystr :=
  external PathResolve (ret (resolve w file_path)).

Definition path_exists (path : pystr) : M bool :=
  external PathExists (ret (bool_decide (is_Some (nodes w !! path)))).

(** [open(path, ...)] followed by [f.read()], up to the bytes read. *)
Definition read_bytes (s : site) (path : pystr) : M pybytes :=
  external s
    match nodes w !! path with
    | Some (File data) => ret data
    | Some Directory =>
        raise (mkExn IsADirectoryError
                 (lit "[Errno 21] Is a directory: " ++ repr_str path))
    | None =>
        raise (mkExn OSError
                 (lit "[Errno 2] No such file or directory: "
                    ++ repr_str path))
    end.

(** [open(path, "r", encoding="utf-8")] followed by [f.read()].  The text
    of the [UnicodeDecodeError] is shortened: no handler looks at it. *)
Definition read_text (path : pystr) : M pystr :=
  data <- read_bytes OpenText path ;;
  match decode_text data with
  | Some content => ret content
  | None =>
      raise (mkExn UnicodeDecodeError
               (lit "'utf-8' codec can't decode bytes"))
  end.

(** Lines 82-98: the loop over [enumerate(chunks)], entered with the
    index [i] and the three lists built so far. *)
Fixpoint build_batch (path content_type : pystr) (total : nat) (i : nat)
    (rest : list Chunk)
    (documents : list pystr) (metadatas : list metadata)
    (ids : list pystr)
    : M (list pystr * list metadata * list pystr) :=
  match rest with
  | [] => ret (documents, metadatas, ids)
  | chunk :: rest' =>
      chunk_id <- fresh_uuid ;;
      build_batch path content_type total (S i) rest'
        (documents ++ [text chunk])
        (metadatas ++ [ChunkMeta path content_type i total])
        (ids ++ [chunk_id])
  end.

(** Lines 74-102: the body of the inner [try]. *)
Definition text_path (chunker : pystr -> result (list Chunk))
    (path content_type collection_name : pystr) : M (pystr * nat) :=
  content <- read_text path ;;
  let size := length content in
  cs <- lift (chunker content) ;;
  set_chunks cs ;;
  batch <- build_batch path content_type (length cs) 0 cs [] [] [] ;;
  let '(documents, metadatas, ids) := batch in
  get_collection TextCollection collection_name ;;
  collection_add TextAdd collection_name documents metadatas ids ;;
  ret (content, size).

(** Lines 106-123: the handler of [UnicodeDecodeError]. *)
Definition binary_path (path content_type collection_name : pystr)
    : M (pystr * nat) :=
  binary_data <- read_bytes OpenBinary path ;;
  let content := binary_placeholder content_type (length binary_data) in
  let size := length binary_data in
  get_collection BinaryCollection collection_name ;;
  chunk_id <- fresh_uuid ;;
  collection_add BinaryAdd collection_name [content]
    [BinaryMeta path content_type true] [chunk_id] ;;
  ret (content, size).

(** Lines 47-132: the body of the outer [try]. *)
Definition ingest_body (file_path collection_name : pystr)
    (content_type : option pystr) : M response :=
  path <- path_resolve file_path ;;
  found <- path_exists path ;;
  if negb found then
    ret (ErrorResponse (lit "File not found: " ++ file_path))
  else
    let content_type :=
      resolve_content_type (guess_type w) path content_type in
    if is_image content_type then
      binary_data <- read_bytes OpenImage path ;;
      let img_format := last_piece (split_char 47%N content_type) in
      ret (ImageResponse binary_data img_format content_type
             (length binary_data))
    else
      chunker <- lift (RecursiveChunker w 1024) ;;
      read <- try_except
                (text_path chunker path content_type collection_name)
                UnicodeDecodeError
                (fun _ => binary_path path content_type collection_name) ;;
      let '(content, size) := read in
      cs <- get_chunks ;;
      ret (IngestResponse (truncate_content content) content_type size
             (match cs with
              | Some cs => length cs
              | None => 1
              end)).

(** Lines 39-44: [Some] is the dictionary returned from the handler,
    [None] means the function goes on. *)
Definition verify_collection (collection_name : pystr)
    : M (option response) :=
  try_except
    (get_collection VerifyCollection collection_name ;; ret None)
    ValueError
    (fun _ =>
       ret (Some (ErrorResponse
                    (lit "Collection '" ++ collection_name
                       ++ lit "' does not exist. Please create it first.")))).

(** The tool.  [Raise] is an exception that leaves the function. *)
Definition ingest_file (file_path collection_name : pystr)
    (content_type : option pystr) (st : State) : result response * State :=
  match chroma_client st with
  | None => (Return (ErrorResponse (lit "Chroma client not initialized")), st)
  | Some _ =>
      let run :=
        early <- verify_collection collection_name ;;
        match early with
        | Some r => ret r
        | None =>
            try_except
              (ingest_body file_path collection_name content_type)
              Exception
              (fun e =>
                 ret (ErrorResponse (lit "Error reading file: " ++ exn_str e)))
        end in
      let '(r, fr) := run (mkFrame st None) in
      (r, globals fr)
  end.

End Pipeline.

(** ** The chunker *)

(** Modelled from the spec: [RecursiveChunker] of section 4.2, whose code
    (the class imported from [chonkie] at line 8) is not part of this
    repository.  Text is cut at paragraph breaks; a piece that is still
    longer than the maximum is cut again at the next finer boundary, in
    the order paragraph, sentence, word, raw character offset.  A piece
    keeps the separator that ends it, and sizes are counted in code
    points. *)
Inductive boundary := Paragraph | Sentence | Word.

Definition separators (b : boundary) : list pystr :=
  match b with
  | Paragraph => [[10%N; 10%N]]
  | Sentence => [lit ". "; lit "! "; lit "? "]
  | Word => [lit " "]
  end.

(** The length of the separator that starts [s], or [0]. *)
Definition separator_at (seps : list pystr) (s : pystr) : nat :=
  match List.find (fun sep => startswith sep s) seps with
  | Some sep => length sep
  | None => 0
  end.

(** The pieces of [s], each ending with a separator or with [s] itself;
    [pending] counts what is left of the separator being read and [piece]
    holds the characters of the piece read so far. *)
Fixpoint split_after (seps : list pystr) (pending : nat) (piece : pystr)
    (s : pystr) : list pystr :=
  match s with
  | [] => match piece with [] => [] | _ => [piece] end
  | c :: s' =>
      let pending :=
        match pending with 0 => separator_at seps s | _ => pending end in
      match pending with
      | 1 => (piece ++ [c]) :: split_after seps 0 [] s'
      | _ => split_after seps (pred pending) (piece ++ [c]) s'
      end
  end.

(** Cutting every [m] characters; [length s] steps are enough when
    [0 < m]. *)
Fixpoint raw_split_fuel (fuel m : nat) (s : pystr) : list pystr :=
  match fuel, s with
  | S fuel', _ :: _ => take m s :: raw_split_fuel fuel' m (drop m s)
  | _, _ => []
  end.

Definition raw_split (m : nat) (s : pystr) : list pystr :=
  raw_split_fuel (length s) m s.

Fixpoint split_recursively (levels : list boundary) (m : nat)
    (piece : pystr) : list pystr :=
  match levels with
  | [] => raw_split m piece
  | b :: finer =>
      concat
        (map (fun candidate =>
                if length candidate <=? m then [candidate]
                else split_recursively finer m candidate)
             (split_after (separators b) 0 [] piece))
  end.

Definition spec_chunk (max_size : nat) (content : pystr) : list Chunk :=
  mkChunk <$> split_recursively [Paragraph; Sentence; Word] max_size content.

Definition spec_RecursiveChunker (max_size : nat)
    : result (pystr -> result (list Chunk)) :=
  if max_size =? 0
  then Raise (mkExn ValueError (lit "chunk_size must be greater than 0"))
  else Return (fun content => Return (spec_chunk max_size content)).

(** ** Reading the store's records *)

(** [m.get("chunk_index")], [m.get("total_chunks")], [m.get("is_binary")]. *)
Definition meta_chunk_index (m : metadata) : option nat :=
  match m with
  | ChunkMeta _ _ i _ => Some i
  | BinaryMeta _ _ _ => None
  end.

Definition meta_total_chunks (m : metadata) : option nat :=
  match m with
  | ChunkMeta _ _ _ n => Some n
  | BinaryMeta _ _ _ => None
  end.

Definition meta_is_binary (m : metadata) : option bool :=
  match m with
  | ChunkMeta _ _ _ _ => None
  | BinaryMeta _ _ b => Some b
  end.

(** The [add] requests a call made: those of the final state that were
    not there at the start. *)
Definition new_calls (before after : State) : list add_call :=
  drop (length (add_calls before)) (add_calls after).

(** ** Sample worlds *)

(** Small surroundings to run the model in: paths resolve to themselves,
    two suffixes have a known type, the chunker is the one of the
    specification, and identifiers are numbered. *)
Definition endswith (suffix s : pystr) : bool :=
  startswith (rev suffix) (rev s).

Definition guess_by_suffix (path : pystr) : option pystr :=
  if endswith (lit ".png") path then Some (lit "image/png")
  else if endswith (lit ".txt") path then Some (lit "text/plain")
  else None.

Definition numbered_uuid (k : nat) : pystr :=
  lit "00000000-0000-4000-8000-" ++ str_of_nat k.

Definition no_fault : site -> option exn := fun _ => None.

Definition sample_world (files : list (pystr * node))
    (faults : site -> option exn) : World :=
  mkWorld (fun p => p) (list_to_map files) guess_by_suffix
          spec_RecursiveChunker numbered_uuid faults.

(** A store with one empty collection, [docs]. *)
Definition sample_state : State :=
  mkState (Some {[ lit "docs" := [] ]}) [] 0.

(** ** What a run can do *)

(** [spec E Q m R] says what a run of [m] can do: the [add] requests it
    makes all satisfy [Q], a value it returns satisfies [R], an exception
    it raises satisfies [E]. *)
Definition spec (E : exn -> Prop) (Q : add_call -> Prop) {A} (m : M A)
    (R : A -> Prop) : Prop :=
  forall fr r fr',
    m fr = (r, fr') ->
    (exists new,
       add_calls (globals fr') = add_calls (globals fr) ++ new
       /\ Forall Q new)
    /\ match r with
       | Return a => R a
       | Raise e => E e
       end.

(** The request of line 102: the texts of the chunks the chunker made of
    the decoded file, in order, with their records and as many ids. *)
Definition text_request (w : World) (path content_type name : pystr)
    (call : add_call) : Prop :=
  exists chunker data content cs,
    RecursiveChunker w 1024 = Return chunker
    /\ nodes w !! path = Some (File data)
    /\ decode_text data = Some content
    /\ chunker content = Return cs
    /\ add_collection call = name
    /\ add_documents call = text <$> cs
    /\ add_metadatas call =
         (fun j => ChunkMeta path content_type j (length cs))
           <$> seq 0 (length cs)
    /\ length (add_ids call) = length cs.

(** The request of line 113: one placeholder. *)
Definition binary_request (w : World) (path content_type name : pystr)
    (call : add_call) : Prop :=
  exists data chunk_id,
    nodes w !! path = Some (File data)
    /\ call = mkAdd name [binary_placeholder content_type (length data)]
                [BinaryMeta path content_type true] [chunk_id].

(** The dictionaries the body of the outer [try] can return, for the
    resolved path and content type of the call. *)
Definition response_described (w : World) (path content_type : pystr)
    (r : response) : Prop :=
  match r with
  | ErrorResponse _ => True
  | ImageResponse data format content_type' size =>
      nodes w !! path = Some (File data)
      /\ is_image content_type = true
      /\ format = last_piece (split_char 47%N content_type)
      /\ content_type' = content_type
      /\ size = length data
  | IngestResponse preview content_type' size _ =>
      is_image content_type = false
      /\ content_type' = content_type
      /\ exists data content,
           nodes w !! path = Some (File data)
           /\ preview = truncate_content content
           /\ ((decode_text data = Some content /\ size = length content)
               \/ (content = binary_placeholder content_type (length data)
                   /\ size = length data))
  end.

(** ** Which path a call takes *)

Inductive branch := ImageBranch | TextBranch | BinaryBranch.

Definition is_binary_request (call : add_call) : bool :=
  match add_metadatas call with
  | [BinaryMeta _ _ true] => true
  | _ => false
  end.

(** The path a finished call took, read off its answer and its last
    request to the store. *)
Definition branch_taken (before : State) (run : result response * State)
    : option branch :=
  match run with
  | (Return (ImageResponse _ _ _ _), _) => Some ImageBranch
  | (Return (IngestResponse _ _ _ _), after) =>
      match last (new_calls before after) with
      | Some call =>
          Some (if is_binary_request call then BinaryBranch else TextBranch)
      | None => None
      end
  | _ => None
  end.

Definition is_image_response (r : result response) : bool :=
  match r with
  | Return (ImageResponse _ _ _ _) => true
  | _ => false
  end.

(** Two worlds that differ in the bytes of one file only. *)
Definition readable_notes : World :=
  sample_world [(lit "/notes.txt", File [x68; x69])] no_fault.

Definition unreadable_notes : World :=
  sample_world [(lit "/notes.txt", File [x68; xff])] no_fault.

(** ** More sample worlds *)

Definition unreachable_store (s : site) : option exn :=
  match s with
  | VerifyCollection =>
      Some (mkExn RuntimeError (lit "Could not connect to the store"))
  | _ => None
  end.

Definition store_outage : World :=
  sample_world [(lit "/notes.txt", File [x68; x69])] unreachable_store.

Definition empty_notes : World :=
  sample_world [(lit "/empty.txt", File [])] no_fault.

(** A store that refuses a request without ids. *)
Definition refuses_empty_batch (s : site) : option exn :=
  match s with
  | TextAdd =>
      Some (mkExn ValueError
              (lit "Expected IDs to be a non-empty list, got 0 IDs in add."))
  | _ => None
  end.

Definition empty_notes_strict_store : World :=
  sample_world [(lit "/empty.txt", File [])] refuses_empty_batch.

Definition three_paragraphs : World :=
  sample_world
    [(lit "/three.txt", File [x61; x0a; x0a; x62; x0a; x0a; x63])] no_fault.

Definition long_notes : World :=
  sample_world [(lit "/long.txt", File (repeat x61 150))] no_fault.

Definition picture : World :=
  sample_world [(lit "/logo.png", File [x89; x50; x4e; x47])] no_fault.

(** ** Start-up *)

(** What [init_chroma] needs of its surroundings: [Path.absolute] and what
    [chromadb.PersistentClient] finds, or fails with, at a path. *)
Record Host := mkHost {
  absolute : pystr -> pystr;
  PersistentClient : pystr -> result (gmap pystr (list entry));
}.

(** Lines 138-148.  The last component is what has been printed. *)
Definition init_chroma (h : Host) (persistent_path : option pystr)
    (st : State) (stdout : list pystr) : result unit * State * list pystr :=
  if negb (truthy persistent_path) then
    (Raise (mkExn ValueError
              (lit "A persistent path for Chroma storage is required")),
     st, stdout)
  else
    let path := default [] persistent_path in
    let printed :=
      stdout ++ [lit "Initializing Chroma in persistent mode with path: "
                   ++ absolute h path] in
    match PersistentClient h (absolute h path) with
    | Return store =>
        (Return tt,
         mkState (Some store) (add_calls st) (uuid_calls st),
         printed)
    | Raise e => (Raise e, st, printed)
    end.

(** A process that has not run [init_chroma] yet. *)
Definition fresh_process : State := mkState None [] 0.

(** A host whose store directory holds one empty collection, [docs]. *)
Definition sample_host : Host :=
  mkHost (fun p => lit "/srv/" ++ p)
         (fun _ => Return {[ lit "docs" := [] ]}).

(** A host whose store cannot be opened. *)
Definition locked_host : Host :=
  mkHost (fun p => lit "/srv/" ++ p)
         (fun p => Raise (mkExn RuntimeError
                            (lit "database is locked: " ++ p))).

(** [r.get("content_type")]. *)
Definition response_content_type (r : response) : option pystr :=
  match r with
  | ErrorResponse _ => None
  | ImageResponse _ _ content_type _ => Some content_type
  | IngestResponse _ content_type _ _ => Some content_type
  end.

(** A file of two bytes that is one character, U+00E9. *)
Definition accented_note : World :=
  sample_world [(lit "/e.txt", File [xc3; xa9])] no_fault.

(** A path where a directory is. *)
Definition notes_directory : World :=
  sample_world [(lit "/notes", Directory)] no_fault.

(** [keeps I m]: the global state after a run of [m] is related by [I] to
    the one before. *)
Definition keeps (I : State -> State -> Prop) {A} (m : M A) : Prop :=
  forall fr r fr', m fr = (r, fr') -> I (globals fr) (globals fr').

(** A store that answers a text batch with a decoding error. *)
Definition garbles_batch (s : site) : option exn :=
  match s with
  | TextAdd =>
      Some (mkExn UnicodeDecodeError
              (lit "'utf-8' codec can't decode byte 0xff in position 0"))
  | _ => None
  end.

Definition three_paragraphs_garbling_store : World :=
  sample_world
    [(lit "/three.txt", File [x61; x0a; x0a; x62; x0a; x0a; x63])]
    garbles_batch.

(** The states a process can be in after a state [st]: [st] itself and
    what any call of the tool, in any surroundings, leaves of such a
    state. *)
Inductive later (st : State) : State -> Prop :=
| later_now : later st st
| later_call w file_path name override s :
    later st s ->
    later st (snd (ingest_file w file_path name override s)).

(** A store that reports a missing collection with its own error class. *)
Definition reports_not_found (s : site) : option exn :=
  match s with
  | VerifyCollection =>
      Some (mkExn NotFoundError (lit "Collection [papers] does not exist"))
  | _ => None
  end.

Definition notes_other_store : World :=
  sample_world [(lit "/notes.txt", File [x68; x69])] reports_not_found.

(** * Properties *)

(** ** Running a computation step by step *)

Section Steps.

Variable w : World.

Lemma bind_Return {A B} (m : M A) (k : A -> M B) fr a fr' :
  m fr = (Return a, fr') -> bind m k fr = k a fr'.
Proof. intros H. unfold bind. now rewrite H. Qed.

Lemma bind_Raise {A B} (m : M A) (k : A -> M B) fr e fr' :
  m fr = (Raise e, fr') -> bind m k fr = (Raise e, fr').
Proof. intros H. unfold bind. now rewrite H. Qed.

Lemma try_except_Return {A} (body : M A) cls handler fr a fr' :
  body fr = (Return a, fr') ->
  try_except body cls handler fr = (Return a, fr').
Proof. intros H. unfold try_except. now rewrite H. Qed.

Lemma try_except_caught {A} (body : M A) cls handler fr e fr' :
  body fr = (Raise e, fr') -> isinstance e cls = true ->
  try_except body cls handler fr = handler e fr'.
Proof. intros H Hc. unfold try_except. now rewrite H, Hc. Qed.

Lemma try_except_missed {A} (body : M A) cls handler fr e fr' :
  body fr = (Raise e, fr') -> isinstance e cls = false ->
  try_except body cls handler fr = (Raise e, fr').
Proof. intros H Hc. unfold try_except. now rewrite H, Hc. Qed.

Lemma external_quiet {A} s (work : M A) fr :
  fault w s = None -> external w s work fr = work fr.
Proof. intros H. unfold external. now rewrite H. Qed.

Lemma external_fault {A} s (work : M A) fr e :
  fault w s = Some e -> external w s work fr = (Raise e, fr).
Proof. intros H. unfold external. now rewrite H. Qed.

Lemma get_collection_found s name fr store entries :
  fault w s = None ->
  chroma_client (globals fr) = Some store ->
  store !! name = Some entries ->
  get_collection w s name fr = (Return tt, fr).
Proof.
  intros Hq Hc Hl. unfold get_collection.
  rewrite external_quiet by assumption. now rewrite Hc, Hl.
Qed.

Lemma get_collection_missing s name fr store :
  fault w s = None ->
  chroma_client (globals fr) = Some store ->
  store !! name = None ->
  get_collection w s name fr =
    (Raise (mkExn ValueError
              (lit "Collection " ++ name ++ lit " does not exist.")), fr).
Proof.
  intros Hq Hc Hl. unfold get_collection.
  rewrite external_quiet by assumption. now rewrite Hc, Hl.
Qed.

Lemma verify_collection_found name fr store entries :
  fault w VerifyCollection = None ->
  chroma_client (globals fr) = Some store ->
  store !! name = Some entries ->
  verify_collection w name fr = (Return None, fr).
Proof.
  intros Hq Hc Hl. unfold verify_collection.
  apply try_except_Return.
  erewrite bind_Return by (eapply get_collection_found; eassumption).
  reflexivity.
Qed.

Lemma verify_collection_missing name fr store :
  fault w VerifyCollection = None ->
  chroma_client (globals fr) = Some store ->
  store !! name = None ->
  verify_collection w name fr =
    (Return (Some (ErrorResponse
                     (lit "Collection '" ++ name
                        ++ lit "' does not exist. Please create it first."))),
     fr).
Proof.
  intros Hq Hc Hl. unfold verify_collection.
  erewrite try_except_caught;
    [reflexivity
    | eapply bind_Raise, get_collection_missing; eassumption
    | reflexivity].
Qed.

Lemma path_resolve_quiet file_path fr :
  fault w PathResolve = None ->
  path_resolve w file_path fr = (Return (resolve w file_path), fr).
Proof.
  intros Hq. unfold path_resolve. now rewrite external_quiet.
Qed.

Lemma path_exists_quiet path fr :
  fault w PathExists = None ->
  path_exists w path fr =
    (Return (bool_decide (is_Some (nodes w !! path))), fr).
Proof.
  intros Hq. unfold path_exists. now rewrite external_quiet.
Qed.

(** Lines 47-52 for a path where something is. *)
Lemma ingest_body_found file_path name content_type fr nd :
  fault w PathResolve = None -> fault w PathExists = None ->
  nodes w !! resolve w file_path = Some nd ->
  ingest_body w file_path name content_type fr =
    (let path := resolve w file_path in
     let content_type :=
       resolve_content_type (guess_type w) path content_type in
     if is_image content_type then
       binary_data <- read_bytes w OpenImage path ;;
       let img_format := last_piece (split_char 47%N content_type) in
       ret (ImageResponse binary_data img_format content_type
              (length binary_data))
     else
       chunker <- lift (RecursiveChunker w 1024) ;;
       read <- try_except
                 (text_path w chunker path content_type name)
                 UnicodeDecodeError
                 (fun _ => binary_path w path content_type name) ;;
       let '(content, size) := read in
       cs <- get_chunks ;;
       ret (IngestResponse (truncate_content content) content_type size
              (match cs with
               | Some cs => length cs
               | None => 1
               end))) fr.
Proof.
  intros Hr He Hn. unfold ingest_body.
  erewrite bind_Return by (now apply path_resolve_quiet).
  erewrite bind_Return by (now apply path_exists_quiet).
  rewrite Hn. reflexivity.
Qed.

Lemma read_bytes_file s path fr data :
  fault w s = None -> nodes w !! path = Some (File data) ->
  read_bytes w s path fr = (Return data, fr).
Proof.
  intros Hq Hn. unfold read_bytes.
  rewrite external_quiet by assumption. now rewrite Hn.
Qed.

(** Once the collection is verified, the call is the outer [try]. *)
Lemma ingest_file_verified file_path name content_type st store entries :
  chroma_client st = Some store ->
  store !! name = Some entries ->
  fault w VerifyCollection = None ->
  ingest_file w file_path name content_type st =
    let '(r, fr) :=
      try_except (ingest_body w file_path name content_type) Exception
        (fun e =>
           ret (ErrorResponse (lit "Error reading file: " ++ exn_str e)))
        (mkFrame st None) in
    (r, globals fr).
Proof.
  intros Hc Hl Hq. unfold ingest_file. rewrite Hc.
  erewrite bind_Return by (eapply verify_collection_found; eassumption).
  reflexivity.
Qed.

Lemma ingest_file_body_Return file_path name content_type st store entries
    r fr :
  chroma_client st = Some store ->
  store !! name = Some entries ->
  fault w VerifyCollection = None ->
  ingest_body w file_path name content_type (mkFrame st None)
    = (Return r, fr) ->
  ingest_file w file_path name content_type st = (Return r, globals fr).
Proof.
  intros Hc Hl Hq Hb.
  erewrite ingest_file_verified by eassumption.
  erewrite try_except_Return by eassumption. reflexivity.
Qed.

End Steps.

(** ** Missing collection, missing file *)

(** With a store that reports a missing collection with a [ValueError]:
    when the named collection is not in the store, the call returns the
    collection-not-found error dictionary and leaves the store, the record
    of [add] requests and the identifier count exactly as they were. *)
Lemma missing_collection_reported w file_path collection_name content_type
    st store :
  chroma_client st = Some store ->
  store !! collection_name = None ->
  fault w VerifyCollection = None ->
  ingest_file w file_path collection_name content_type st =
    (Return (ErrorResponse
               (lit "Collection '" ++ collection_name
                  ++ lit "' does not exist. Please create it first.")),
     st).
Proof.
  intros Hc Hl Hq. unfold ingest_file. rewrite Hc.
  erewrite bind_Return by (eapply verify_collection_missing; eassumption).
  reflexivity.
Qed.

(** C6.  When the collection exists and nothing is at the resolved path,
    the call returns the file-not-found error dictionary, naming the path
    as it was given, and the state is exactly as it was. *)
Theorem missing_file_reported w file_path collection_name content_type
    st store entries :
  chroma_client st = Some store ->
  store !! collection_name = Some entries ->
  fault w VerifyCollection = None ->
  fault w PathResolve = None ->
  fault w PathExists = None ->
  nodes w !! resolve w file_path = None ->
  ingest_file w file_path collection_name content_type st =
    (Return (ErrorResponse (lit "File not found: " ++ file_path)), st).
Proof.
  intros Hc Hl Hv Hr He Hn.
  change st with (globals (mkFrame st None)) at 2.
  eapply ingest_file_body_Return; try eassumption.
  unfold ingest_body.
  erewrite bind_Return by (now apply path_resolve_quiet).
  erewrite bind_Return by (now apply path_exists_quiet).
  rewrite Hn. reflexivity.
Qed.

(** ** Images *)

Lemma startswith_image_is_image content_type :
  startswith (lit "image/") content_type = true ->
  is_image content_type = true.
Proof.
  intros H. unfold is_image. rewrite H.
  destruct content_type; [discriminate H | reflexivity].
Qed.

(** Lines 60-69 when the file can be read. *)
Lemma image_call_runs w file_path collection_name content_type
    st store entries data :
  chroma_client st = Some store ->
  store !! collection_name = Some entries ->
  fault w VerifyCollection = None ->
  fault w PathResolve = None ->
  fault w PathExists = None ->
  fault w OpenImage = None ->
  nodes w !! resolve w file_path = Some (File data) ->
  is_image
    (resolve_content_type (guess_type w) (resolve w file_path) content_type)
    = true ->
  ingest_file w file_path collection_name content_type st =
    (Return
       (ImageResponse data
          (last_piece
             (split_char 47%N
                (resolve_content_type (guess_type w) (resolve w file_path)
                   content_type)))
          (resolve_content_type (guess_type w) (resolve w file_path)
             content_type)
          (length data)),
     st).
Proof.
  intros Hc Hl Hv Hr He Ho Hn Hi.
  change st with (globals (mkFrame st None)) at 2.
  eapply ingest_file_body_Return; try eassumption.
  erewrite ingest_body_found by eassumption. cbv zeta. rewrite Hi.
  erewrite bind_Return by (eapply read_bytes_file; eassumption).
  reflexivity.
Qed.

(** C8.  When the collection and the file exist and the resolved content
    type starts with [image/], the call returns the file's bytes as an
    inline image, with the resolved content type and the number of bytes,
    and the state (store, record of [add] requests, identifier count) is
    exactly as it was. *)
Theorem image_returned_inline w file_path collection_name content_type
    st store entries data :
  chroma_client st = Some store ->
  store !! collection_name = Some entries ->
  fault w VerifyCollection = None ->
  fault w PathResolve = None ->
  fault w PathExists = None ->
  fault w OpenImage = None ->
  nodes w !! resolve w file_path = Some (File data) ->
  startswith (lit "image/")
    (resolve_content_type (guess_type w) (resolve w file_path) content_type)
    = true ->
  ingest_file w file_path collection_name content_type st =
    (Return
       (ImageResponse data
          (last_piece
             (split_char 47%N
                (resolve_content_type (guess_type w) (resolve w file_path)
                   content_type)))
          (resolve_content_type (guess_type w) (resolve w file_path)
             content_type)
          (length data)),
     st).
Proof.
  intros Hc Hl Hv Hr He Ho Hn Hi.
  eapply image_call_runs; try eassumption.
  now apply startswith_image_is_image.
Qed.

(** ** A program logic for the pipeline *)

(** The rules of [spec], one for each construct and each operation of the
    pipeline.  [E] must hold of what the world raises and of the
    exceptions the operations raise themselves. *)
Section Logic.

Variable w : World.
Variable E : exn -> Prop.
Variable Q : add_call -> Prop.

Hypothesis E_fault : forall s e, fault w s = Some e -> E e.
Hypothesis E_own :
  forall c msg,
    In c [AttributeError; ValueError; IsADirectoryError; OSError;
          UnicodeDecodeError] ->
    E (mkExn c msg).

Lemma quiet_step (fr fr' : Frame) :
  add_calls (globals fr') = add_calls (globals fr) ->
  exists new,
    add_calls (globals fr') = add_calls (globals fr) ++ new /\ Forall Q new.
Proof.
  intros H. exists []. split; [now rewrite app_nil_r | constructor].
Qed.

Lemma spec_ret {A} (a : A) (R : A -> Prop) : R a -> spec E Q (ret a) R.
Proof.
  intros HR fr r fr' Hrun. injection Hrun as <- <-.
  split; [now apply quiet_step | exact HR].
Qed.

Lemma spec_raise {A} (e : exn) (R : A -> Prop) : E e -> spec E Q (raise e) R.
Proof.
  intros HE fr r fr' Hrun. injection Hrun as <- <-.
  split; [now apply quiet_step | exact HE].
Qed.

Lemma spec_lift {A} (r : result A) (R : A -> Prop) :
  match r with Return a => R a | Raise e => E e end -> spec E Q (lift r) R.
Proof.
  destruct r; intros H; [now apply spec_ret | now apply spec_raise].
Qed.

Lemma spec_weaken {A} (m : M A) (R R' : A -> Prop) :
  spec E Q m R -> (forall a, R a -> R' a) -> spec E Q m R'.
Proof.
  intros Hm HR fr r fr' Hrun. destruct (Hm _ _ _ Hrun) as [Hc Hr].
  split; [exact Hc|]. destruct r; auto.
Qed.

Lemma spec_bind {A B} (m : M A) (k : A -> M B) (R1 : A -> Prop)
    (R2 : B -> Prop) :
  spec E Q m R1 -> (forall a, R1 a -> spec E Q (k a) R2) -> spec E Q (bind m k) R2.
Proof.
  intros Hm Hk fr r fr' Hrun. unfold bind in Hrun.
  destruct (m fr) as [[a|e] fr1] eqn:Hm1.
  - destruct (Hm _ _ _ Hm1) as [(new1 & Hc1 & HQ1) HR1].
    destruct (Hk a HR1 _ _ _ Hrun) as [(new2 & Hc2 & HQ2) HR2].
    split; [|exact HR2].
    exists (new1 ++ new2). split.
    + now rewrite Hc2, Hc1, app_assoc.
    + now apply Forall_app.
  - injection Hrun as <- <-. exact (Hm _ _ _ Hm1).
Qed.

Lemma spec_try {A} (body : M A) cls (handler : exn -> M A)
    (R : A -> Prop) :
  spec E Q body R ->
  (forall e, isinstance e cls = true -> spec E Q (handler e) R) ->
  spec E Q (try_except body cls handler) R.
Proof.
  intros Hb Hh fr r fr' Hrun. unfold try_except in Hrun.
  destruct (body fr) as [[a|e] fr1] eqn:Hb1.
  - injection Hrun as <- <-. exact (Hb _ _ _ Hb1).
  - destruct (isinstance e cls) eqn:Hc.
    + destruct (Hb _ _ _ Hb1) as [(new1 & Hc1 & HQ1) _].
      destruct (Hh e Hc _ _ _ Hrun) as [(new2 & Hc2 & HQ2) HR2].
      split; [|exact HR2].
      exists (new1 ++ new2). split.
      * now rewrite Hc2, Hc1, app_assoc.
      * now apply Forall_app.
    + injection Hrun as <- <-. exact (Hb _ _ _ Hb1).
Qed.

Lemma spec_external {A} s (work : M A) (R : A -> Prop) :
  spec E Q work R -> spec E Q (external w s work) R.
Proof.
  intros Hw fr r fr' Hrun. unfold external in Hrun.
  destruct (fault w s) as [e|] eqn:Hf.
  - injection Hrun as <- <-. split; [now apply quiet_step | eauto].
  - eauto.
Qed.

Lemma spec_set_chunks cs : spec E Q (set_chunks cs) (fun _ => True).
Proof.
  intros fr r fr' Hrun. injection Hrun as <- <-.
  split; [now apply quiet_step | exact I].
Qed.

Lemma spec_get_chunks : spec E Q get_chunks (fun _ => True).
Proof.
  intros fr r fr' Hrun. injection Hrun as <- <-.
  split; [now apply quiet_step | exact I].
Qed.

Lemma spec_fresh_uuid : spec E Q (fresh_uuid w) (fun _ => True).
Proof.
  intros fr r fr' Hrun. injection Hrun as <- <-.
  split; [now apply quiet_step | exact I].
Qed.

Lemma spec_get_collection s name :
  spec E Q (get_collection w s name) (fun _ => True).
Proof.
  apply spec_external. intros fr r fr' Hrun.
  destruct (chroma_client (globals fr)) as [store|].
  - destruct (store !! name); injection Hrun as <- <-;
      (split; [now apply quiet_step|]); [exact I | apply E_own; simpl; tauto].
  - injection Hrun as <- <-.
    split; [now apply quiet_step | apply E_own; simpl; tauto].
Qed.

Lemma spec_collection_add s name documents metadatas ids :
  Q (mkAdd name documents metadatas ids) ->
  spec E Q (collection_add w s name documents metadatas ids) (fun _ => True).
Proof.
  intros HQ fr r fr' Hrun. unfold collection_add in Hrun.
  destruct (fault w s) as [e|] eqn:Hf; injection Hrun as <- <-;
    (split; [eexists; split; [reflexivity | now repeat constructor]|]);
    [eauto | exact I].
Qed.

Lemma spec_path_resolve file_path :
  spec E Q (path_resolve w file_path) (fun p => p = resolve w file_path).
Proof. apply spec_external, spec_ret. reflexivity. Qed.

Lemma spec_path_exists path :
  spec E Q (path_exists w path)
    (fun b => b = bool_decide (is_Some (nodes w !! path))).
Proof. apply spec_external, spec_ret. reflexivity. Qed.

Lemma spec_read_bytes s path :
  spec E Q (read_bytes w s path)
    (fun data => nodes w !! path = Some (File data)).
Proof.
  apply spec_external. destruct (nodes w !! path) as [[data|]|].
  - now apply spec_ret.
  - apply spec_raise, E_own. simpl; tauto.
  - apply spec_raise, E_own. simpl; tauto.
Qed.

Lemma spec_read_text path :
  spec E Q (read_text w path)
    (fun content =>
       exists data,
         nodes w !! path = Some (File data)
         /\ decode_text data = Some content).
Proof.
  eapply spec_bind; [apply spec_read_bytes|].
  intros data Hd. cbv beta. destruct (decode_text data) eqn:Hdec.
  - apply spec_ret. exists data. now split.
  - apply spec_raise, E_own. simpl; tauto.
Qed.

(** The loop keeps what was built, adds one document, one record and one
    identifier per chunk, and numbers the records from [i]. *)
Lemma spec_build_batch path content_type total rest :
  forall i documents metadatas ids,
    spec E Q (build_batch w path content_type total i rest
            documents metadatas ids)
      (fun batch =>
         exists new_ids,
           length new_ids = length rest
           /\ batch =
                (documents ++ (text <$> rest),
                 metadatas
                   ++ ((fun j => ChunkMeta path content_type j total)
                         <$> seq i (length rest)),
                 ids ++ new_ids)).
Proof.
  induction rest as [|chunk rest IH]; intros i documents metadatas ids.
  - apply spec_ret. exists []. split; [reflexivity|].
    cbn [length seq fmap list_fmap]. now rewrite !app_nil_r.
  - cbn [build_batch].
    eapply spec_bind; [apply spec_fresh_uuid|]. intros chunk_id _.
    eapply spec_weaken; [apply IH|]. cbv beta.
    intros batch (new_ids & Hlen & ->). exists (chunk_id :: new_ids).
    split; [simpl; now rewrite Hlen|].
    cbn [length seq fmap list_fmap]. now rewrite <- !app_assoc.
Qed.

End Logic.

(** ** What a call can ask of the store and what it can answer *)

Section Described.

Variable w : World.
Variable E : exn -> Prop.

Hypothesis E_fault : forall s e, fault w s = Some e -> E e.
Hypothesis E_own :
  forall c msg,
    In c [AttributeError; ValueError; IsADirectoryError; OSError;
          UnicodeDecodeError] ->
    E (mkExn c msg).
Hypothesis E_chunker : forall e, RecursiveChunker w 1024 = Raise e -> E e.
Hypothesis E_chunk :
  forall chunker content e,
    RecursiveChunker w 1024 = Return chunker ->
    chunker content = Raise e -> E e.

Variables file_path name : pystr.
Variable override : option pystr.

Let path := resolve w file_path.
Let content_type := resolve_content_type (guess_type w) path override.
Let Q (call : add_call) : Prop :=
  text_request w path content_type name call
  \/ binary_request w path content_type name call.

Lemma text_path_described chunker :
  RecursiveChunker w 1024 = Return chunker ->
  spec E Q (text_path w chunker path content_type name)
    (fun read =>
       exists data,
         nodes w !! path = Some (File data)
         /\ decode_text data = Some (fst read)
         /\ snd read = length (fst read)).
Proof.
  intros Hch. unfold text_path.
  eapply spec_bind; [now apply spec_read_text|].
  intros content (data & Hd & Hdec). cbv beta zeta.
  eapply spec_bind with (R1 := fun cs => chunker content = Return cs).
  { apply spec_lift. destruct (chunker content) eqn:Hc; eauto. }
  intros cs Hcs.
  eapply spec_bind; [apply spec_set_chunks|]. intros _ _.
  eapply spec_bind; [now apply spec_build_batch|].
  intros [[documents metadatas] ids] (new_ids & Hlen & Hb).
  injection Hb as -> -> ->.
  eapply spec_bind; [now apply spec_get_collection|]. intros _ _.
  eapply spec_bind.
  { apply spec_collection_add; [assumption|]. left.
    exists chunker, data, content, cs. now repeat split. }
  intros _ _. apply spec_ret. exists data. now repeat split.
Qed.

Lemma binary_path_described :
  spec E Q (binary_path w path content_type name)
    (fun read =>
       exists data,
         nodes w !! path = Some (File data)
         /\ fst read = binary_placeholder content_type (length data)
         /\ snd read = length data).
Proof.
  unfold binary_path.
  eapply spec_bind; [now apply spec_read_bytes|].
  intros data Hd. cbv beta zeta.
  eapply spec_bind; [now apply spec_get_collection|]. intros _ _.
  eapply spec_bind; [apply spec_fresh_uuid|]. intros chunk_id _.
  eapply spec_bind.
  { apply spec_collection_add; [assumption|]. right.
    now exists data, chunk_id. }
  intros _ _. apply spec_ret. exists data. now repeat split.
Qed.

Lemma ingest_body_described :
  spec E Q (ingest_body w file_path name override)
    (response_described w path content_type).
Proof.
  unfold ingest_body.
  eapply spec_bind; [now apply spec_path_resolve|]. intros ? ->.
  eapply spec_bind; [now apply spec_path_exists|]. intros ? ->.
  fold path. destruct (bool_decide _); cbn [negb];
    [|now apply spec_ret].
  cbv zeta. fold content_type.
  destruct (is_image content_type) eqn:Himg.
  - eapply spec_bind; [now apply spec_read_bytes|].
    intros data Hd. apply spec_ret. cbn. now repeat split.
  - eapply spec_bind
      with (R1 := fun chunker => RecursiveChunker w 1024 = Return chunker).
    { apply spec_lift. destruct (RecursiveChunker w 1024) eqn:Hc; eauto. }
    intros chunker Hch.
    eapply spec_bind
      with (R1 := fun read =>
              exists data,
                nodes w !! path = Some (File data)
                /\ ((decode_text data = Some (fst read)
                     /\ snd read = length (fst read))
                    \/ (fst read
                          = binary_placeholder content_type (length data)
                        /\ snd read = length data))).
    { apply spec_try.
      - eapply spec_weaken; [now apply text_path_described|].
        intros read (data & Hd & Hdec & Hsz). exists data. tauto.
      - intros _ _. eapply spec_weaken; [apply binary_path_described|].
        intros read (data & Hd & Hc & Hsz). exists data. tauto. }
    intros [content size] (data & Hd & Hcases). cbn [fst snd] in Hcases.
    eapply spec_bind; [apply spec_get_chunks|]. intros cs _.
    apply spec_ret. cbn. repeat split; try assumption.
    exists data, content. now repeat split.
Qed.

(** Lines 39-44 with an initialised client: the state is untouched, and
    only a failure of the store that is not a [ValueError] leaves the
    block as an exception. *)
Lemma verify_collection_cases fr store r fr' :
  chroma_client (globals fr) = Some store ->
  verify_collection w name fr = (r, fr') ->
  fr' = fr
  /\ match r with
     | Return None => True
     | Return (Some resp) => exists msg, resp = ErrorResponse msg
     | Raise e =>
         fault w VerifyCollection = Some e
         /\ isinstance e ValueError = false
     end.
Proof.
  intros Hc. unfold verify_collection, try_except, bind, get_collection,
    external.
  destruct (fault w VerifyCollection) as [e|] eqn:Hf.
  - destruct (isinstance e ValueError) eqn:Hv; intros Hrun;
      injection Hrun as <- <-; eauto.
  - rewrite Hc. destruct (store !! name); intros Hrun.
    + injection Hrun as <- <-. auto.
    + cbn in Hrun. injection Hrun as <- <-. eauto.
Qed.

Lemma outer_try_described fr r fr' :
  try_except (ingest_body w file_path name override) Exception
    (fun e => ret (ErrorResponse (lit "Error reading file: " ++ exn_str e)))
    fr = (r, fr') ->
  (exists new,
     add_calls (globals fr') = add_calls (globals fr) ++ new
     /\ Forall Q new)
  /\ match r with
     | Return resp => response_described w path content_type resp
     | Raise e => E e /\ isinstance e Exception = false
     end.
Proof.
  unfold try_except.
  destruct (ingest_body w file_path name override fr) as [[resp|e] fr1]
    eqn:Hb;
    destruct (ingest_body_described _ _ _ Hb) as [Hnew Hres].
  - intros Hrun. injection Hrun as <- <-. auto.
  - destruct (isinstance e Exception) eqn:Hi; intros Hrun;
      injection Hrun as <- <-; (split; [exact Hnew|]);
      [exact I | auto].
Qed.

(** Every run of the tool: the requests it made are those of lines 102
    and 113, a dictionary it returns is one of those described, and an
    exception that leaves it either is no [Exception] or came from the
    store at line 40 and is no [ValueError]. *)
Lemma ingest_file_described st r st' :
  ingest_file w file_path name override st = (r, st') ->
  (exists new, add_calls st' = add_calls st ++ new /\ Forall Q new)
  /\ match r with
     | Return resp => response_described w path content_type resp
     | Raise e =>
         (E e /\ isinstance e Exception = false)
         \/ (fault w VerifyCollection = Some e
             /\ isinstance e ValueError = false)
     end.
Proof.
  unfold ingest_file. destruct (chroma_client st) as [store|] eqn:Hc.
  - unfold bind.
    destruct (verify_collection w name (mkFrame st None))
      as [[early|e] fr1] eqn:Hv;
      destruct (verify_collection_cases (mkFrame st None) store _ _ Hc Hv)
        as [-> Hcase].
    + destruct early as [resp|].
      * intros Hrun. injection Hrun as <- <-.
        split; [exists []; now rewrite app_nil_r|].
        now destruct Hcase as [msg ->].
      * destruct (try_except _ _ _ _) as [r1 fr1] eqn:Ht.
        intros Hrun. injection Hrun as <- <-.
        destruct (outer_try_described _ _ _ Ht) as [Hnew Hres].
        split; [exact Hnew|]. destruct r1; auto.
    + intros Hrun. injection Hrun as <- <-.
      split; [exists []; now rewrite app_nil_r | now right].
  - intros Hrun. injection Hrun as <- <-.
    split; [exists []; now rewrite app_nil_r | exact I].
Qed.

End Described.

Lemma new_calls_appended before after new :
  add_calls after = add_calls before ++ new -> new_calls before after = new.
Proof. intros H. unfold new_calls. rewrite H. apply drop_app_length. Qed.

(** The requests of a call and the dictionary it returns, whatever the
    file system and the store do. *)
Lemma ingest_file_requests w file_path name override st r st' :
  ingest_file w file_path name override st = (r, st') ->
  let path := resolve w file_path in
  let content_type := resolve_content_type (guess_type w) path override in
  Forall (fun call =>
            text_request w path content_type name call
            \/ binary_request w path content_type name call)
         (new_calls st st')
  /\ forall resp,
       r = Return resp -> response_described w path content_type resp.
Proof.
  intros Hrun.
  destruct (ingest_file_described w (fun _ => True)
              (fun _ _ _ => I) (fun _ _ _ => I) (fun _ _ => I)
              (fun _ _ _ _ _ => I) _ _ _ _ _ _ Hrun) as [(new & Hnew & HQ) Hres].
  cbv zeta. rewrite (new_calls_appended _ _ _ Hnew). split; [exact HQ|].
  intros resp ->. exact Hres.
Qed.

(** ** The preview *)

(** C7.  A successful text or binary ingest answers with a preview of its
    content, the decoded text of the file or the placeholder: the content
    itself when it has at most 100 characters, its first 100 characters
    followed by three dots when it has more. *)
Theorem preview_truncated w file_path name override st st'
    preview content_type size chunks_created :
  ingest_file w file_path name override st =
    (Return (IngestResponse preview content_type size chunks_created), st') ->
  exists data content,
    nodes w !! resolve w file_path = Some (File data)
    /\ (decode_text data = Some content
        \/ content = binary_placeholder content_type (length data))
    /\ (length content <= 100 -> preview = content)
    /\ (100 < length content -> preview = take 100 content ++ lit "...").
Proof.
  intros Hrun.
  destruct (ingest_file_requests _ _ _ _ _ _ _ Hrun) as [_ Hres].
  destruct (Hres _ eq_refl) as (_ & -> & data & content & Hd & -> & Hc).
  exists data, content. split; [exact Hd|]. split; [tauto|].
  unfold truncate_content.
  destruct (100 <? length content) eqn:Hlen.
  - apply Nat.ltb_lt in Hlen. split; [lia | reflexivity].
  - apply Nat.ltb_ge in Hlen. split; [reflexivity | lia].
Qed.

(** ** The binary path *)

Lemma alter_found {V} (f : V -> V) (k : pystr) (m : gmap pystr V) v :
  m !! k = Some v -> alter f k m = <[k := f v]> m.
Proof.
  intros H. apply map_eq. intros j.
  rewrite lookup_alter, lookup_insert.
  destruct (decide (k = j)) as [<-|]; [now rewrite H | reflexivity].
Qed.

Section Paths.

Variable w : World.

Lemma read_text_decoded path fr data content :
  fault w OpenText = None ->
  nodes w !! path = Some (File data) ->
  decode_text data = Some content ->
  read_text w path fr = (Return content, fr).
Proof.
  intros Hq Hn Hd. unfold read_text.
  erewrite bind_Return by (eapply read_bytes_file; eassumption).
  now rewrite Hd.
Qed.

Lemma read_text_undecodable path fr data :
  fault w OpenText = None ->
  nodes w !! path = Some (File data) ->
  decode_text data = None ->
  read_text w path fr =
    (Raise (mkExn UnicodeDecodeError
              (lit "'utf-8' codec can't decode bytes")), fr).
Proof.
  intros Hq Hn Hd. unfold read_text.
  erewrite bind_Return by (eapply read_bytes_file; eassumption).
  now rewrite Hd.
Qed.

(** Lines 106-123 when the file can be read and the store answers. *)
Lemma binary_path_runs path content_type name st cs store entries data :
  chroma_client st = Some store ->
  store !! name = Some entries ->
  fault w OpenBinary = None ->
  fault w BinaryCollection = None ->
  fault w BinaryAdd = None ->
  nodes w !! path = Some (File data) ->
  let placeholder := binary_placeholder content_type (length data) in
  let record := BinaryMeta path content_type true in
  let chunk_id := uuid4 w (uuid_calls st) in
  binary_path w path content_type name (mkFrame st cs) =
    (Return (placeholder, length data),
     mkFrame
       (mkState
          (Some (<[name := entries ++ [mkEntry chunk_id placeholder record]]>
                   store))
          (add_calls st ++ [mkAdd name [placeholder] [record] [chunk_id]])
          (S (uuid_calls st)))
       cs).
Proof.
  intros Hc Hl Ho Hg Ha Hn. cbv zeta. unfold binary_path.
  erewrite bind_Return by (eapply read_bytes_file; eassumption).
  erewrite bind_Return by (eapply get_collection_found; eassumption).
  unfold bind, fresh_uuid, collection_add, ret. cbn [globals chunks
    chroma_client add_calls uuid_calls].
  rewrite Ha, Hc. cbn [fmap option_fmap option_map].
  erewrite alter_found by eassumption. reflexivity.
Qed.

End Paths.

(** C9.  When the collection and the file exist, the content type is not
    an image type and the bytes are not valid UTF-8, the call makes one
    [add] request with one document, whose record has [is_binary = True]
    and whose text is ["<Binary data of type "], the content type,
    [", size "], the number of bytes in decimal and [" bytes>"]; the
    collection gains that one fragment, and the answer reports the number
    of bytes and [chunks_created = 1]. *)
Theorem undecodable_file_stored_as_placeholder w file_path name override
    st store entries data chunker :
  chroma_client st = Some store ->
  store !! name = Some entries ->
  nodes w !! resolve w file_path = Some (File data) ->
  decode_text data = None ->
  is_image
    (resolve_content_type (guess_type w) (resolve w file_path) override)
    = false ->
  RecursiveChunker w 1024 = Return chunker ->
  fault w VerifyCollection = None ->
  fault w PathResolve = None ->
  fault w PathExists = None ->
  fault w OpenText = None ->
  fault w OpenBinary = None ->
  fault w BinaryCollection = None ->
  fault w BinaryAdd = None ->
  let path := resolve w file_path in
  let content_type := resolve_content_type (guess_type w) path override in
  let placeholder :=
    lit "<Binary data of type " ++ content_type ++ lit ", size "
      ++ lit (NilZero.string_of_uint (Nat.to_uint (length data)))
      ++ lit " bytes>" in
  let record := BinaryMeta path content_type true in
  let chunk_id := uuid4 w (uuid_calls st) in
  ingest_file w file_path name override st =
    (Return (IngestResponse (truncate_content placeholder) content_type
               (length data) 1),
     mkState
       (Some (<[name := entries ++ [mkEntry chunk_id placeholder record]]>
                store))
       (add_calls st ++ [mkAdd name [placeholder] [record] [chunk_id]])
       (S (uuid_calls st)))
  /\ meta_is_binary record = Some true.
Proof.
  intros Hc Hl Hn Hd Hi Hch Hv Hr He Hot Hob Hg Ha. cbv zeta.
  split; [|reflexivity].
  eassert (Hbody : ingest_body w file_path name override (mkFrame st None)
                   = (Return _, _)).
  { erewrite ingest_body_found by eassumption. cbv zeta. rewrite Hi, Hch.
    erewrite bind_Return by reflexivity.
    erewrite bind_Return.
    2:{ erewrite try_except_caught.
        - eapply binary_path_runs; eassumption.
        - unfold text_path. eapply bind_Raise.
          eapply read_text_undecodable; eassumption.
        - reflexivity. }
    reflexivity. }
  erewrite ingest_file_body_Return by eassumption. reflexivity.
Qed.

(** ** Empty files *)

Lemma fmap_cons_not_nil (c : N) (o : option pystr) : cons c <$> o <> Some [].
Proof. destruct o; discriminate. Qed.

Lemma utf8_decode_nil_inv bs : utf8_decode bs = Some [] -> bs = [].
Proof.
  destruct bs as [|b0 r0]; [reflexivity|]. intros H. exfalso. revert H.
  cbn [utf8_decode].
  destruct (b0 <? 128)%N; [apply fmap_cons_not_nil|].
  destruct (in_range 194 223 b0).
  { destruct r0 as [|b1 r1]; [discriminate|].
    destruct (continuation b1); [apply fmap_cons_not_nil | discriminate]. }
  destruct (in_range 224 239 b0).
  { destruct r0 as [|b1 [|b2 r2]]; try discriminate.
    destruct (_ && _); [apply fmap_cons_not_nil | discriminate]. }
  destruct (in_range 240 244 b0); [|discriminate].
  destruct r0 as [|b1 [|b2 [|b3 r3]]]; try discriminate.
  destruct (_ && _); [apply fmap_cons_not_nil | discriminate].
Qed.

(** Only the file without a byte decodes to the empty text. *)
Lemma decode_text_empty data : decode_text data = Some [] <-> data = [].
Proof.
  split; [|now intros ->]. unfold decode_text. intros H.
  destruct (utf8_decode (map to_N data)) as [s|] eqn:Hd; [|discriminate H].
  assert (s = []) as ->.
  { destruct s as [|c s]; [reflexivity|]. cbn in H.
    destruct (c =? 13)%N; discriminate H. }
  apply utf8_decode_nil_inv in Hd. now destruct data.
Qed.

(** Lines 74-102 for a file whose text is empty, with a chunker that
    makes no chunk of it and a store that answers. *)
Lemma text_path_empty w chunker path content_type name st store entries data :
  chroma_client st = Some store ->
  store !! name = Some entries ->
  fault w OpenText = None ->
  fault w TextCollection = None ->
  fault w TextAdd = None ->
  nodes w !! path = Some (File data) ->
  decode_text data = Some [] ->
  chunker [] = Return [] ->
  text_path w chunker path content_type name (mkFrame st None) =
    (Return ([], 0),
     mkFrame
       (mkState (Some store) (add_calls st ++ [mkAdd name [] [] []])
                (uuid_calls st))
       (Some [])).
Proof.
  intros Hc Hl Ho Hg Ha Hn Hd Hch. unfold text_path.
  erewrite bind_Return by (eapply read_text_decoded; eassumption).
  rewrite Hch.
  erewrite bind_Return by reflexivity.
  erewrite bind_Return by reflexivity.
  erewrite bind_Return by reflexivity. cbv beta iota zeta.
  erewrite bind_Return by (eapply get_collection_found; eassumption).
  unfold bind, collection_add, ret.
  cbn [globals chunks chroma_client add_calls uuid_calls zip_entries].
  rewrite Ha, Hc. cbn [fmap option_fmap option_map].
  erewrite alter_found by eassumption.
  rewrite app_nil_r, insert_id by assumption. reflexivity.
Qed.

(** With a store that accepts a request without documents: when the
    collection exists, the file decodes to the empty text and the chunker
    makes no chunk of it, the call makes one [add] request with no
    document, no record and no id, leaves the fragments of every
    collection as they were, and answers with an empty preview, size [0]
    and [chunks_created = 0]. *)
Lemma empty_file_sends_empty_batch w file_path name override
    st store entries data chunker :
  chroma_client st = Some store ->
  store !! name = Some entries ->
  nodes w !! resolve w file_path = Some (File data) ->
  decode_text data = Some [] ->
  is_image
    (resolve_content_type (guess_type w) (resolve w file_path) override)
    = false ->
  RecursiveChunker w 1024 = Return chunker ->
  chunker [] = Return [] ->
  fault w VerifyCollection = None ->
  fault w PathResolve = None ->
  fault w PathExists = None ->
  fault w OpenText = None ->
  fault w TextCollection = None ->
  fault w TextAdd = None ->
  ingest_file w file_path name override st =
    (Return
       (IngestResponse []
          (resolve_content_type (guess_type w) (resolve w file_path) override)
          0 0),
     mkState (Some store) (add_calls st ++ [mkAdd name [] [] []])
             (uuid_calls st)).
Proof.
  intros Hc Hl Hn Hd Hi Hch Hempty Hv Hr He Hot Hg Ha.
  eassert (Hbody : ingest_body w file_path name override (mkFrame st None)
                   = (Return _, _)).
  { erewrite ingest_body_found by eassumption. cbv zeta. rewrite Hi, Hch.
    erewrite bind_Return by reflexivity.
    erewrite bind_Return.
    2:{ eapply try_except_Return. eapply text_path_empty; eassumption. }
    reflexivity. }
  erewrite ingest_file_body_Return by eassumption. reflexivity.
Qed.

(** ** Which path a call takes *)

(** C10, counterexample.  The same call on two files with the same
    resolved content type, [text/plain]: the one whose bytes are valid
    UTF-8 goes down the text path, the other down the binary path. *)
Lemma text_or_binary_not_fixed_by_content_type :
  resolve_content_type (guess_type readable_notes)
      (resolve readable_notes (lit "/notes.txt")) None
    = lit "text/plain"
  /\ resolve_content_type (guess_type unreadable_notes)
       (resolve unreadable_notes (lit "/notes.txt")) None
     = lit "text/plain"
  /\ branch_taken sample_state
       (ingest_file readable_notes (lit "/notes.txt") (lit "docs") None
          sample_state)
     = Some TextBranch
  /\ branch_taken sample_state
       (ingest_file unreadable_notes (lit "/notes.txt") (lit "docs") None
          sample_state)
     = Some BinaryBranch.
Proof. repeat split; vm_compute; reflexivity. Qed.

(** C10, as the code has it.  For a call that reaches the dispatch of
    line 60, the image path is taken exactly when the resolved content
    type, a function of the path and the override alone, starts with
    [image/]; and an override that starts with [image/] makes the call
    return the bytes of the file inline, whatever they are, and leave the
    state as it was. *)
Theorem image_branch_by_content_type w file_path name override
    st store entries data :
  chroma_client st = Some store ->
  store !! name = Some entries ->
  nodes w !! resolve w file_path = Some (File data) ->
  fault w VerifyCollection = None ->
  fault w PathResolve = None ->
  fault w PathExists = None ->
  fault w OpenImage = None ->
  (is_image_response (fst (ingest_file w file_path name override st)) = true
   <-> startswith (lit "image/")
         (resolve_content_type (guess_type w) (resolve w file_path) override)
       = true)
  /\ forall forced,
       override = Some forced ->
       startswith (lit "image/") forced = true ->
       ingest_file w file_path name override st =
         (Return (ImageResponse data (last_piece (split_char 47%N forced))
                    forced (length data)),
          st).
Proof.
  intros Hc Hl Hn Hv Hr He Ho. split.
  - split.
    + destruct (ingest_file w file_path name override st) as [r st'] eqn:Hrun.
      destruct (ingest_file_requests _ _ _ _ _ _ _ Hrun) as [_ Hres].
      destruct r as [[| |]|]; cbn; try discriminate. intros _.
      destruct (Hres _ eq_refl) as (_ & Himg & _).
      unfold is_image in Himg. now apply andb_true_iff in Himg.
    + intros Hi. apply startswith_image_is_image in Hi.
      erewrite image_call_runs by eassumption. reflexivity.
  - intros forced -> Hi.
    assert (Hres : resolve_content_type (guess_type w) (resolve w file_path)
                     (Some forced) = forced).
    { destruct forced; [discriminate Hi | reflexivity]. }
    apply startswith_image_is_image in Hi.
    erewrite image_call_runs by (rewrite ?Hres; eassumption).
    now rewrite Hres.
Qed.

(** ** Failures *)

(** C2, where the code departs from it.  A failure of the store at line
    40 that is not a [ValueError] is no dictionary: it leaves the function
    as the exception it is. *)
Theorem store_failure_at_verification_escapes :
  ingest_file store_outage (lit "/notes.txt") (lit "docs") None sample_state
  = (Raise (mkExn RuntimeError (lit "Could not connect to the store")),
     sample_state).
Proof. vm_compute. reflexivity. Qed.

(** The same for every store, file and call: what the store raises at
    line 40, unless it is a [ValueError], is what the call raises, and the
    state is as it was. *)
Lemma verification_failure_escapes w file_path name override st store e :
  chroma_client st = Some store ->
  fault w VerifyCollection = Some e ->
  isinstance e ValueError = false ->
  ingest_file w file_path name override st = (Raise e, st).
Proof.
  intros Hc Hf Hv. unfold ingest_file. rewrite Hc.
  assert (Hver : verify_collection w name (mkFrame st None)
                 = (Raise e, mkFrame st None)).
  { unfold verify_collection. eapply try_except_missed; [|exact Hv].
    eapply bind_Raise. unfold get_collection. now apply external_fault. }
  now rewrite (bind_Raise _ _ _ _ _ Hver).
Qed.

Lemma own_exceptions_are_Exceptions c msg :
  In c [AttributeError; ValueError; IsADirectoryError; OSError;
        UnicodeDecodeError] ->
  isinstance (mkExn c msg) Exception = true.
Proof.
  cbn [In]. intros [<-|[<-|[<-|[<-|[<-|[]]]]]]; reflexivity.
Qed.

(** X15.  Past line 40 the rule holds: when what the file system, the
    store and the chunker raise are [Exception]s, and the store at line 40
    either answers or raises a [ValueError], the call returns a
    dictionary. *)
Theorem failures_past_verification_are_returned w file_path name override st :
  (forall s e, fault w s = Some e -> isinstance e Exception = true) ->
  (forall e, RecursiveChunker w 1024 = Raise e ->
             isinstance e Exception = true) ->
  (forall chunker content e,
      RecursiveChunker w 1024 = Return chunker ->
      chunker content = Raise e -> isinstance e Exception = true) ->
  (forall e, fault w VerifyCollection = Some e ->
             isinstance e ValueError = true) ->
  exists resp, fst (ingest_file w file_path name override st) = Return resp.
Proof.
  intros Hf Hc Hk Hv.
  destruct (ingest_file w file_path name override st) as [r st'] eqn:Hrun.
  destruct (ingest_file_described w
              (fun e => isinstance e Exception = true)
              Hf own_exceptions_are_Exceptions Hc Hk _ _ _ _ _ _ Hrun)
    as [_ Hres].
  destruct r as [resp|e]; [now exists resp|]. exfalso.
  destruct Hres as [[He Hne]|[Hfe Hne]].
  - congruence.
  - apply Hv in Hfe. congruence.
Qed.

(** ** The chunker of the specification *)

Lemma raw_split_fuel_bounded fuel m s :
  Forall (fun piece => length piece <= m) (raw_split_fuel fuel m s).
Proof.
  revert s. induction fuel as [|fuel IH]; intros s; [constructor|].
  destruct s as [|c s]; [constructor|]. cbn [raw_split_fuel].
  constructor; [|apply IH]. rewrite length_take. lia.
Qed.

(** [length s] steps are enough: nothing of [s] is left out. *)
Lemma raw_split_fuel_complete fuel m s :
  0 < m -> length s <= fuel -> concat (raw_split_fuel fuel m s) = s.
Proof.
  intros Hm. revert s. induction fuel as [|fuel IH]; intros s Hlen.
  - destruct s; [reflexivity | simpl in Hlen; lia].
  - destruct s as [|c s]; [reflexivity|]. cbn [raw_split_fuel concat].
    rewrite IH; [apply take_drop|].
    rewrite length_drop. simpl in *. lia.
Qed.

Lemma split_after_complete seps s :
  forall pending piece,
    concat (split_after seps pending piece s) = piece ++ s.
Proof.
  induction s as [|c s IH]; intros pending piece.
  - cbn. destruct piece; cbn; now rewrite ?app_nil_r.
  - cbn [split_after]. cbv zeta.
    destruct (match pending with 0 => _ | S _ => pending end) as [|[|p]];
      cbn [concat]; rewrite IH; now rewrite <- ?app_assoc.
Qed.

Lemma split_recursively_bounded levels m piece :
  Forall (fun p => length p <= m) (split_recursively levels m piece).
Proof.
  revert piece. induction levels as [|b finer IH]; intros piece.
  - apply raw_split_fuel_bounded.
  - cbn [split_recursively]. apply Forall_concat, Forall_forall.
    intros ps Hps. apply list_elem_of_In, in_map_iff in Hps.
    destruct Hps as (candidate & <- & _).
    destruct (length candidate <=? m) eqn:Hle; [|apply IH].
    apply Nat.leb_le in Hle. now repeat constructor.
Qed.

Lemma split_recursively_complete levels m piece :
  0 < m -> concat (split_recursively levels m piece) = piece.
Proof.
  intros Hm. revert piece. induction levels as [|b finer IH]; intros piece.
  - now apply raw_split_fuel_complete.
  - cbn [split_recursively].
    rewrite <- (split_after_complete (separators b) piece 0 []) at 2.
    cbn [app]. induction (split_after (separators b) 0 [] piece)
      as [|candidate rest IHr]; [reflexivity|].
    cbn [map concat]. rewrite concat_app, IHr. f_equal.
    destruct (length candidate <=? m); [apply app_nil_r | apply IH].
Qed.

(** Nothing is lost: the chunks, put end to end, are the text. *)
Lemma spec_chunk_complete m content :
  0 < m -> concat (text <$> spec_chunk m content) = content.
Proof.
  intros Hm. unfold spec_chunk.
  rewrite <- (split_recursively_complete [Paragraph; Sentence; Word] m content)
    at 2 by assumption.
  f_equal. induction (split_recursively _ m content) as [|p ps IH];
    [reflexivity | cbn; now f_equal].
Qed.

(** C3.  The chunker of the specification, built with the maximum size
    1024 the pipeline passes at line 71, accepts every text, and no chunk
    it returns has a text longer than 1024 code points, the unit of
    [len(content)], which the pipeline reports as the size. *)
Theorem chunks_within_1024 content :
  exists chunker cs,
    spec_RecursiveChunker 1024 = Return chunker
    /\ chunker content = Return cs
    /\ Forall (fun chunk => length (text chunk) <= 1024) cs.
Proof.
  eexists _, _. split; [reflexivity|]. split; [reflexivity|].
  unfold spec_chunk. rewrite Forall_fmap.
  apply (split_recursively_bounded [Paragraph; Sentence; Word] 1024 content).
Qed.

(** With that chunker in the pipeline, no document of a text batch sent to
    the store is longer than 1024 code points. *)
Lemma stored_documents_within_1024 w file_path name override st r st' k call :
  RecursiveChunker w = spec_RecursiveChunker ->
  ingest_file w file_path name override st = (r, st') ->
  new_calls st st' !! k = Some call ->
  is_binary_request call = false ->
  Forall (fun document => length document <= 1024) (add_documents call).
Proof.
  intros Hw Hrun Hk Hb.
  destruct (ingest_file_requests _ _ _ _ _ _ _ Hrun) as [HQ _].
  rewrite Forall_lookup in HQ. destruct (HQ _ _ Hk) as [Ht|Hbin].
  - destruct Ht as (chunker & data & content & cs & Hch & _ & _ & Hcs & _
                    & -> & _).
    rewrite Hw in Hch. injection Hch as <-. injection Hcs as <-.
    unfold spec_chunk. rewrite <- list_fmap_compose, Forall_fmap.
    apply (split_recursively_bounded [Paragraph; Sentence; Word]).
  - destruct Hbin as (data & chunk_id & _ & ->). discriminate Hb.
Qed.

(** ** The properties at work *)

(** An empty text file in an existing collection: with a store that
    accepts anything the call does make an [add] request, with nothing in
    it; with a store that refuses a request without ids the call answers
    with an error. *)
Lemma empty_file_reaches_store :
  decode_text [] = Some []
  /\ new_calls sample_state
       (snd (ingest_file empty_notes (lit "/empty.txt") (lit "docs") None
               sample_state))
     = [mkAdd (lit "docs") [] [] []]
  /\ fst (ingest_file empty_notes_strict_store (lit "/empty.txt")
            (lit "docs") None sample_state)
     = Return
         (ErrorResponse
            (lit "Error reading file: Expected IDs to be a non-empty list, got 0 IDs in add.")).
Proof. repeat split; vm_compute; reflexivity. Qed.

Lemma empty_file_sends_empty_batch_witness :
  ingest_file empty_notes (lit "/empty.txt") (lit "docs") None sample_state =
    (Return
       (IngestResponse []
          (resolve_content_type (guess_type empty_notes)
             (resolve empty_notes (lit "/empty.txt")) None)
          0 0),
     mkState (Some {[ lit "docs" := [] ]})
             (add_calls sample_state ++ [mkAdd (lit "docs") [] [] []])
             (uuid_calls sample_state)).
Proof.
  eapply (empty_file_sends_empty_batch empty_notes (lit "/empty.txt")
            (lit "docs") None sample_state {[ lit "docs" := [] ]} [] []);
    vm_compute; reflexivity.
Defined.

Lemma missing_collection_reported_witness :
  ingest_file readable_notes (lit "/notes.txt") (lit "papers") None
    sample_state =
    (Return (ErrorResponse
               (lit "Collection '" ++ lit "papers"
                  ++ lit "' does not exist. Please create it first.")),
     sample_state).
Proof.
  apply (missing_collection_reported readable_notes (lit "/notes.txt")
           (lit "papers") None sample_state {[ lit "docs" := [] ]});
    vm_compute; reflexivity.
Defined.

Lemma missing_file_reported_witness :
  ingest_file readable_notes (lit "/absent.txt") (lit "docs") None
    sample_state =
    (Return (ErrorResponse (lit "File not found: " ++ lit "/absent.txt")),
     sample_state).
Proof.
  apply (missing_file_reported readable_notes (lit "/absent.txt")
           (lit "docs") None sample_state {[ lit "docs" := [] ]} []);
    vm_compute; reflexivity.
Defined.

Lemma image_returned_inline_witness :
  ingest_file picture (lit "/logo.png") (lit "docs") None sample_state =
    (Return
       (ImageResponse [x89; x50; x4e; x47]
          (last_piece
             (split_char 47%N
                (resolve_content_type (guess_type picture)
                   (resolve picture (lit "/logo.png")) None)))
          (resolve_content_type (guess_type picture)
             (resolve picture (lit "/logo.png")) None)
          (length [x89; x50; x4e; x47])),
     sample_state).
Proof.
  apply (image_returned_inline picture (lit "/logo.png") (lit "docs") None
           sample_state {[ lit "docs" := [] ]} []);
    vm_compute; reflexivity.
Defined.

Lemma image_branch_by_content_type_witness :
  (is_image_response
     (fst (ingest_file readable_notes (lit "/notes.txt") (lit "docs")
             (Some (lit "image/jpeg")) sample_state)) = true
   <-> startswith (lit "image/")
         (resolve_content_type (guess_type readable_notes)
            (resolve readable_notes (lit "/notes.txt"))
            (Some (lit "image/jpeg")))
       = true)
  /\ forall forced,
       Some (lit "image/jpeg") = Some forced ->
       startswith (lit "image/") forced = true ->
       ingest_file readable_notes (lit "/notes.txt") (lit "docs")
         (Some (lit "image/jpeg")) sample_state =
         (Return (ImageResponse [x68; x69]
                    (last_piece (split_char 47%N forced)) forced
                    (length [x68; x69])),
          sample_state).
Proof.
  apply (image_branch_by_content_type readable_notes (lit "/notes.txt")
           (lit "docs") (Some (lit "image/jpeg")) sample_state
           {[ lit "docs" := [] ]} []);
    vm_compute; reflexivity.
Defined.

Lemma undecodable_file_stored_as_placeholder_witness :
  ingest_file unreadable_notes (lit "/notes.txt") (lit "docs") None
    sample_state =
    (Return
       (IngestResponse (lit "<Binary data of type text/plain, size 2 bytes>")
          (lit "text/plain") 2 1),
     mkState
       (Some {[ lit "docs" :=
                  [mkEntry (numbered_uuid 0)
                     (lit "<Binary data of type text/plain, size 2 bytes>")
                     (BinaryMeta (lit "/notes.txt") (lit "text/plain") true)]
             ]})
       [mkAdd (lit "docs")
          [lit "<Binary data of type text/plain, size 2 bytes>"]
          [BinaryMeta (lit "/notes.txt") (lit "text/plain") true]
          [numbered_uuid 0]]
       1)
  /\ meta_is_binary (BinaryMeta (lit "/notes.txt") (lit "text/plain") true)
     = Some true.
Proof.
  pose proof (undecodable_file_stored_as_placeholder unreadable_notes
                (lit "/notes.txt") (lit "docs") None sample_state
                {[ lit "docs" := [] ]} [] [x68; xff]
                (fun content => Return (spec_chunk 1024 content))
                eq_refl eq_refl eq_refl eq_refl eq_refl eq_refl eq_refl
                eq_refl eq_refl eq_refl eq_refl eq_refl eq_refl) as H.
  vm_compute in H. vm_compute. exact H.
Defined.

Lemma preview_truncated_witness :
  exists data content,
    nodes long_notes !! resolve long_notes (lit "/long.txt")
      = Some (File data)
    /\ (decode_text data = Some content
        \/ content = binary_placeholder (lit "text/plain") (length data))
    /\ (length content <= 100 -> repeat 97%N 100 ++ lit "..." = content)
    /\ (100 < length content ->
        repeat 97%N 100 ++ lit "..." = take 100 content ++ lit "...").
Proof.
  eapply (preview_truncated long_notes (lit "/long.txt") (lit "docs") None
            sample_state).
  vm_compute. reflexivity.
Defined.

(** The scenario of a text in three pieces: three documents, numbered
    0, 1, 2, each with [total_chunks = 3]. *)
Example three_paragraphs_stored :
  (add_metadatas <$>
     new_calls sample_state
       (snd (ingest_file three_paragraphs (lit "/three.txt") (lit "docs")
               None sample_state)))
  = [[ChunkMeta (lit "/three.txt") (lit "text/plain") 0 3;
      ChunkMeta (lit "/three.txt") (lit "text/plain") 1 3;
      ChunkMeta (lit "/three.txt") (lit "text/plain") 2 3]].
Proof. vm_compute. reflexivity. Qed.

(** A directory exists but cannot be opened: the catch-all of line 134
    turns the [IsADirectoryError] into an error dictionary. *)
Example directory_reported :
  ingest_file (sample_world [(lit "/notes", Directory)] no_fault)
    (lit "/notes") (lit "docs") None sample_state
  = (Return (ErrorResponse
               (lit "Error reading file: [Errno 21] Is a directory: '/notes'")),
     sample_state).
Proof. vm_compute. reflexivity. Qed.

(** The scenario of 2500 characters without a boundary: three chunks. *)
Example long_text_in_three_chunks :
  length <$> (text <$> spec_chunk 1024 (repeat 65%N 2500))
  = [1024; 1024; 452].
Proof. vm_compute. reflexivity. Qed.
Example decode_text_ascii :
  decode_text [x68; x69; x0d; x0a] = Some (lit "hi" ++ [10%N]).
Proof. reflexivity. Qed.

Example decode_text_two_bytes : decode_text [xc3; xa9] = Some [233%N].
Proof. reflexivity. Qed.

Example decode_text_euro : decode_text [xe2; x82; xac] = Some [0x20AC%N].
Proof. reflexivity. Qed.

Example decode_text_invalid : decode_text [x68; xff] = None.
Proof. reflexivity. Qed.

Example decode_text_overlong : decode_text [xc0; x80] = None.
Proof. reflexivity. Qed.

Example decode_text_surrogate : decode_text [xed; xa0; x80] = None.
Proof. reflexivity. Qed.


(** * Further properties of the tool *)

(** ** The requests of a call *)

(** X1.  Whatever the file system, the chunker and the store do, every
    [add] request of a call is addressed to the collection the call names
    and carries as many metadata records and as many ids as documents. *)
Theorem requests_aligned w file_path name override st r st' k call :
  ingest_file w file_path name override st = (r, st') ->
  new_calls st st' !! k = Some call ->
  add_collection call = name
  /\ length (add_metadatas call) = length (add_documents call)
  /\ length (add_ids call) = length (add_documents call).
Proof.
  intros Hrun Hk.
  destruct (ingest_file_requests _ _ _ _ _ _ _ Hrun) as [HQ _].
  rewrite Forall_lookup in HQ. destruct (HQ _ _ Hk) as [Ht|Hb].
  - destruct Ht as (chunker & data & content & cs & _ & _ & _ & _ & Hn
                    & Hdocs & Hmetas & Hids).
    rewrite Hdocs, Hmetas, Hids, !length_fmap, length_seq. auto.
  - destruct Hb as (data & chunk_id & _ & ->). cbn. auto.
Qed.

Lemma requests_aligned_witness :
  exists call,
    new_calls sample_state
      (snd (ingest_file three_paragraphs (lit "/three.txt") (lit "docs") None
              sample_state)) !! 0 = Some call
    /\ add_collection call = lit "docs"
    /\ length (add_metadatas call) = length (add_documents call)
    /\ length (add_ids call) = length (add_documents call).
Proof.
  eexists. split; [vm_compute; reflexivity|].
  eapply (requests_aligned three_paragraphs (lit "/three.txt") (lit "docs")
            None sample_state _ _ 0);
    vm_compute; reflexivity.
Defined.

(** ** The answer of a call *)

Lemma truncate_content_length content :
  length (truncate_content content) <= 103.
Proof.
  unfold truncate_content. destruct (100 <? length content) eqn:Hlen.
  - rewrite length_app, length_take.
    change (length (lit "...")) with 3. lia.
  - apply Nat.ltb_ge in Hlen. lia.
Qed.

(** X2.  Line 125 says the content is cut "to prevent large outputs": the
    [content] of a successful text or binary answer never has more than
    103 characters, however large the file. *)
Theorem preview_bounded w file_path name override st st'
    preview content_type size chunks_created :
  ingest_file w file_path name override st =
    (Return (IngestResponse preview content_type size chunks_created), st') ->
  length preview <= 103.
Proof.
  intros Hrun.
  destruct (ingest_file_requests _ _ _ _ _ _ _ Hrun) as [_ Hres].
  destruct (Hres _ eq_refl) as (_ & _ & data & content & _ & -> & _).
  apply truncate_content_length.
Qed.

Lemma preview_bounded_witness : length (repeat 97%N 100 ++ lit "...") <= 103.
Proof.
  eapply (preview_bounded long_notes (lit "/long.txt") (lit "docs") None
            sample_state).
  vm_compute. reflexivity.
Defined.

(** X3.  An override that is the empty string counts as no override: the
    call does exactly what it does without one. *)
Theorem empty_override_ignored w file_path name st :
  ingest_file w file_path name (Some []) st
  = ingest_file w file_path name None st.
Proof. reflexivity. Qed.

(** X4.  A non-empty override is taken as it is, without validation and
    whatever the path suggests: it is the [content_type] of every answer
    that has one. *)
Theorem override_returned_verbatim w file_path name forced st resp st' :
  forced <> [] ->
  ingest_file w file_path name (Some forced) st = (Return resp, st') ->
  response_content_type resp = None
  \/ response_content_type resp = Some forced.
Proof.
  intros Hne Hrun.
  destruct (ingest_file_requests _ _ _ _ _ _ _ Hrun) as [_ Hres].
  specialize (Hres _ eq_refl). cbv zeta in Hres.
  assert (Hct : resolve_content_type (guess_type w) (resolve w file_path)
                  (Some forced) = forced).
  { destruct forced; [contradiction | reflexivity]. }
  rewrite Hct in Hres.
  destruct resp as [msg|data format ct size|preview ct size n]; cbn in *.
  - now left.
  - right. destruct Hres as (_ & _ & _ & -> & _). reflexivity.
  - right. destruct Hres as (_ & -> & _). reflexivity.
Qed.

Lemma override_returned_verbatim_witness :
  response_content_type
    (IngestResponse (lit "hi") (lit "application/x-notes") 2 1) = None
  \/ response_content_type
       (IngestResponse (lit "hi") (lit "application/x-notes") 2 1)
     = Some (lit "application/x-notes").
Proof.
  eapply (override_returned_verbatim readable_notes (lit "/notes.txt")
            (lit "docs") (lit "application/x-notes") sample_state);
    [discriminate | vm_compute; reflexivity].
Defined.

(** ** Sizes *)

Lemma fmap_cons_inv (c : N) (o : option pystr) s :
  cons c <$> o = Some s -> exists s', o = Some s' /\ s = c :: s'.
Proof.
  destruct o as [s'|]; [|discriminate]. intros H. injection H as <-. eauto.
Qed.

(** A code point takes at least one byte. *)
Lemma utf8_decode_length n :
  forall bs s,
    length bs <= n -> utf8_decode bs = Some s -> length s <= length bs.
Proof.
  induction n as [|n IH]; intros bs s Hn.
  - destruct bs; [|simpl in Hn; lia]. intros H. now injection H as <-.
  - destruct bs as [|b0 r0]; [intros H; now injection H as <-|].
    cbn [utf8_decode]. cbn [length] in Hn.
    destruct (b0 <? 128)%N.
    { intros H. apply fmap_cons_inv in H as (s' & H & ->).
      apply IH in H; cbn [length]; lia. }
    destruct (in_range 194 223 b0).
    { destruct r0 as [|b1 r1]; [discriminate|].
      destruct (continuation b1); [|discriminate].
      intros H. apply fmap_cons_inv in H as (s' & H & ->).
      cbn [length] in *. apply IH in H; lia. }
    destruct (in_range 224 239 b0).
    { destruct r0 as [|b1 [|b2 r2]]; try discriminate.
      destruct (_ && _); [|discriminate].
      intros H. apply fmap_cons_inv in H as (s' & H & ->).
      cbn [length] in *. apply IH in H; lia. }
    destruct (in_range 240 244 b0); [|discriminate].
    destruct r0 as [|b1 [|b2 [|b3 r3]]]; try discriminate.
    destruct (_ && _); [|discriminate].
    intros H. apply fmap_cons_inv in H as (s' & H & ->).
    cbn [length] in *. apply IH in H; lia.
Qed.

(** Reading newlines never adds a character. *)
Lemma universal_newlines_length n :
  forall s, length s <= n -> length (universal_newlines s) <= length s.
Proof.
  induction n as [|n IH]; intros s Hn.
  - destruct s; [reflexivity | simpl in Hn; lia].
  - destruct s as [|c rest]; [reflexivity|].
    cbn [universal_newlines]. cbn [length] in Hn.
    destruct (c =? 13)%N.
    + destruct rest as [|d rest']; [cbn; lia|].
      cbn [length] in *. destruct (d =? 10)%N.
      * specialize (IH rest'). lia.
      * specialize (IH (d :: rest')). cbn [length] in IH. lia.
    + cbn [length]. specialize (IH rest). lia.
Qed.

Lemma decode_text_length data content :
  decode_text data = Some content -> length content <= length data.
Proof.
  unfold decode_text. intros H.
  destruct (utf8_decode (map to_N data)) as [s|] eqn:Hd; [|discriminate H].
  injection H as <-.
  apply (utf8_decode_length _ _ _ (Nat.le_refl _)) in Hd.
  rewrite length_map in Hd.
  pose proof (universal_newlines_length _ s (Nat.le_refl _)). lia.
Qed.

(** X5.  The [size] of a successful text or binary answer, characters of
    the decoded text on the text path and bytes on the binary path, is
    never more than the number of bytes of the file. *)
Theorem size_at_most_file_bytes w file_path name override st st'
    preview content_type size chunks_created :
  ingest_file w file_path name override st =
    (Return (IngestResponse preview content_type size chunks_created), st') ->
  exists data,
    nodes w !! resolve w file_path = Some (File data)
    /\ size <= length data.
Proof.
  intros Hrun.
  destruct (ingest_file_requests _ _ _ _ _ _ _ Hrun) as [_ Hres].
  destruct (Hres _ eq_refl)
    as (_ & _ & data & content & Hd & _ & [[Hdec ->]|[_ ->]]);
    exists data; (split; [exact Hd|]).
  - now apply decode_text_length.
  - reflexivity.
Qed.

Lemma size_at_most_file_bytes_witness :
  exists data,
    nodes accented_note !! resolve accented_note (lit "/e.txt")
      = Some (File data)
    /\ 1 <= length data.
Proof.
  eapply (size_at_most_file_bytes accented_note (lit "/e.txt") (lit "docs")
            None sample_state).
  vm_compute. reflexivity.
Defined.

(** ** The format of an image *)

(** Splitting a string without the separator gives the string; with it,
    at least two pieces, the last of which is what follows the last
    separator. *)
Lemma split_char_last sep s :
  (sep ∉ s -> split_char sep s = [s])
  /\ (sep ∈ s ->
      exists p p' ps before,
        split_char sep s = p :: p' :: ps
        /\ s = before ++ sep :: List.last (p' :: ps) []
        /\ sep ∉ List.last (p' :: ps) []).
Proof.
  induction s as [|c s [IHout IHin]].
  - split; [reflexivity|]. intros H. now apply elem_of_nil in H.
  - cbn [split_char]. destruct (c =? sep)%N eqn:Hc.
    + apply N.eqb_eq in Hc. subst c. split.
      * intros H. exfalso. apply H, list_elem_of_here.
      * intros _. destruct (decide (sep ∈ s)) as [Hin|Hout].
        -- destruct (IHin Hin) as (p & p' & ps & before & -> & Hs & Hfree).
           exists [], p, (p' :: ps), (sep :: before).
           split; [reflexivity|]. split; [|exact Hfree].
           cbn [app]. f_equal. exact Hs.
        -- rewrite (IHout Hout). exists [], s, [], [].
           split; [reflexivity|]. split; [reflexivity | exact Hout].
    + apply N.eqb_neq in Hc. split.
      * intros H. apply not_elem_of_cons in H as [_ H].
        now rewrite (IHout H).
      * intros H. apply elem_of_cons in H as [H|H]; [congruence|].
        destruct (IHin H) as (p & p' & ps & before & -> & Hs & Hfree).
        exists (c :: p), p', ps, (c :: before).
        split; [reflexivity|]. split; [|exact Hfree].
        cbn [app]. f_equal. exact Hs.
Qed.

Lemma startswith_prefix p s :
  startswith p s = true -> exists rest, s = p ++ rest.
Proof.
  revert s. induction p as [|a p IH]; intros s H; [now exists s|].
  destruct s as [|b s]; [discriminate H|]. cbn in H.
  apply andb_true_iff in H as [Hab H]. apply N.eqb_eq in Hab. subst b.
  destruct (IH _ H) as [rest ->]. now exists rest.
Qed.

Lemma startswith_image_has_slash content_type :
  startswith (lit "image/") content_type = true -> 47%N ∈ content_type.
Proof.
  intros H. apply startswith_prefix in H as [rest ->].
  rewrite elem_of_app. left.
  do 5 apply list_elem_of_further. apply list_elem_of_here.
Qed.

(** X6.  The [format] of an inline image is the subtype of its content
    type: what follows the last slash of the content type, which has one,
    and no slash itself.  The [size] beside it is the number of bytes
    returned. *)
Theorem image_format_is_subtype w file_path name override st st'
    data format content_type size :
  ingest_file w file_path name override st =
    (Return (ImageResponse data format content_type size), st') ->
  (exists before, content_type = before ++ 47%N :: format)
  /\ (47%N ∉ format)
  /\ size = length data.
Proof.
  intros Hrun.
  destruct (ingest_file_requests _ _ _ _ _ _ _ Hrun) as [_ Hres].
  destruct (Hres _ eq_refl) as (_ & Himg & -> & -> & ->).
  unfold is_image in Himg. apply andb_true_iff in Himg as [_ Himg].
  apply startswith_image_has_slash in Himg.
  destruct (split_char_last 47%N
              (resolve_content_type (guess_type w) (resolve w file_path)
                 override)) as [_ Hin].
  destruct (Hin Himg) as (p & p' & ps & before & Hsplit & Hs & Hfree).
  unfold last_piece. rewrite Hsplit.
  change (List.last (p :: p' :: ps) []) with (List.last (p' :: ps) []).
  split; [now exists before|]. split; [exact Hfree | reflexivity].
Qed.

Lemma image_format_is_subtype_witness :
  (exists before, lit "image/png" = before ++ 47%N :: lit "png")
  /\ (47%N ∉ lit "png")
  /\ 4 = length [x89; x50; x4e; x47].
Proof.
  eapply (image_format_is_subtype picture (lit "/logo.png") (lit "docs") None
            sample_state).
  vm_compute. reflexivity.
Defined.

(** ** Error messages *)

Lemma bind_Return_inv {A B} (m : M A) (k : A -> M B) fr b fr' :
  bind m k fr = (Return b, fr') ->
  exists a fr1, m fr = (Return a, fr1) /\ k a fr1 = (Return b, fr').
Proof.
  unfold bind. destruct (m fr) as [[a|e] fr1]; [eauto | discriminate].
Qed.

(** The body of the outer [try] returns an error dictionary at line 52
    only, and has changed nothing by then. *)
Lemma ingest_body_error w file_path name override fr msg fr' :
  ingest_body w file_path name override fr = (Return (ErrorResponse msg), fr')
  -> msg = lit "File not found: " ++ file_path /\ fr' = fr.
Proof.
  unfold ingest_body. intros H.
  apply bind_Return_inv in H as (path & fr1 & Hp & H).
  apply bind_Return_inv in H as (found & fr2 & Hf & H).
  assert (fr1 = fr) as ->.
  { unfold path_resolve, external, ret in Hp.
    destruct (fault w PathResolve); [discriminate | congruence]. }
  assert (fr2 = fr) as ->.
  { unfold path_exists, external, ret in Hf.
    destruct (fault w PathExists); [discriminate | congruence]. }
  destruct (negb found).
  - injection H as <- <-. auto.
  - cbv zeta in H. destruct (is_image _).
    + apply bind_Return_inv in H as (data & fr3 & _ & H). discriminate H.
    + apply bind_Return_inv in H as (chunker & fr3 & _ & H).
      apply bind_Return_inv in H as ([content size] & fr4 & _ & H).
      apply bind_Return_inv in H as (cs & fr5 & _ & H). discriminate H.
Qed.

Lemma verify_collection_message w name fr resp fr' :
  verify_collection w name fr = (Return (Some resp), fr') ->
  resp = ErrorResponse
           (lit "Collection '" ++ name
              ++ lit "' does not exist. Please create it first.")
  /\ fr' = fr.
Proof.
  unfold verify_collection, try_except, bind, get_collection, external.
  destruct (fault w VerifyCollection) as [e|].
  - destruct (isinstance e ValueError); [|discriminate].
    intros H. injection H as <- <-. auto.
  - destruct (chroma_client (globals fr)) as [store|].
    + destruct (store !! name); [discriminate|].
      cbn. intros H. injection H as <- <-. auto.
    + cbn. discriminate.
Qed.

(** X7.  The [error] of an answer has one of four forms: the client is
    not initialised; the collection, named in the message, does not
    exist; the file, named as the caller gave it, was not found; or
    ["Error reading file: "] followed by the text of an [Exception] raised
    past line 46.  In the first three cases the state is as it was. *)
Theorem error_messages_classified w file_path name override st msg st' :
  ingest_file w file_path name override st
    = (Return (ErrorResponse msg), st') ->
  (chroma_client st = None
   /\ msg = lit "Chroma client not initialized" /\ st' = st)
  \/ (msg = lit "Collection '" ++ name
              ++ lit "' does not exist. Please create it first."
      /\ st' = st)
  \/ (msg = lit "File not found: " ++ file_path /\ st' = st)
  \/ (exists e,
        isinstance e Exception = true
        /\ msg = lit "Error reading file: " ++ exn_str e).
Proof.
  unfold ingest_file. destruct (chroma_client st) as [store|] eqn:Hc.
  - unfold bind.
    destruct (verify_collection w name (mkFrame st None))
      as [[[resp|]|e] fr1] eqn:Hv.
    + apply verify_collection_message in Hv as [-> ->].
      intros H. injection H as <- <-. right. left. auto.
    + unfold try_except.
      destruct (verify_collection_cases w name (mkFrame st None) store _ _
                  Hc Hv) as [-> _].
      destruct (ingest_body w file_path name override (mkFrame st None))
        as [[resp|e] fr2] eqn:Hb.
      * intros H. injection H as -> <-.
        apply ingest_body_error in Hb as [-> ->]. right. right. left. auto.
      * destruct (isinstance e Exception) eqn:He; [|discriminate].
        intros H. injection H as <- <-. right. right. right. eauto.
    + discriminate.
  - intros H. injection H as <- <-. left. auto.
Qed.

Lemma error_messages_classified_witness :
  (chroma_client sample_state = None
   /\ lit "Error reading file: [Errno 21] Is a directory: '/notes'"
      = lit "Chroma client not initialized"
   /\ sample_state = sample_state)
  \/ (lit "Error reading file: [Errno 21] Is a directory: '/notes'"
      = lit "Collection '" ++ lit "docs"
          ++ lit "' does not exist. Please create it first."
      /\ sample_state = sample_state)
  \/ (lit "Error reading file: [Errno 21] Is a directory: '/notes'"
      = lit "File not found: " ++ lit "/notes"
      /\ sample_state = sample_state)
  \/ (exists e,
        isinstance e Exception = true
        /\ lit "Error reading file: [Errno 21] Is a directory: '/notes'"
           = lit "Error reading file: " ++ exn_str e).
Proof.
  apply (error_messages_classified notes_directory (lit "/notes")
           (lit "docs") None sample_state).
  vm_compute. reflexivity.
Defined.

(** ** Start-up and the first call *)

Lemma not_initialized_message_apart w file_path name override st r st' :
  chroma_client st <> None ->
  ingest_file w file_path name override st = (r, st') ->
  r <> Return (ErrorResponse (lit "Chroma client not initialized")).
Proof.
  intros Hc Hrun ->.
  apply error_messages_classified in Hrun
    as [(Hnone & _)|[(H & _)|[(H & _)|(e & _ & H)]]].
  - contradiction.
  - apply (f_equal (take 2)) in H. vm_compute in H. discriminate H.
  - apply (f_equal (take 1)) in H. vm_compute in H. discriminate H.
  - apply (f_equal (take 1)) in H. vm_compute in H. discriminate H.
Qed.

(** X8.  A call answers that the client is not initialised exactly when
    [chroma_client] is still [None]; it then answers nothing else, for
    any arguments, and touches neither the file system nor the state. *)
Theorem not_initialized_iff w file_path name override st :
  chroma_client st = None
  <-> ingest_file w file_path name override st
      = (Return (ErrorResponse (lit "Chroma client not initialized")), st).
Proof.
  split.
  - intros Hc. unfold ingest_file. now rewrite Hc.
  - intros Hrun. destruct (chroma_client st) as [store|] eqn:Hc;
      [|reflexivity].
    exfalso.
    eapply (not_initialized_message_apart w file_path name override st);
      [now rewrite Hc | exact Hrun | reflexivity].
Qed.

(** X10.  When [init_chroma] fails, for want of a path ([None] or the
    empty string) or because the store cannot be opened, the global client
    is what it was, so that every later call behaves as before; for want
    of a path it fails with a [ValueError] before anything is printed. *)
Theorem failed_init_chroma_changes_nothing h persistent_path st out e st' out' :
  init_chroma h persistent_path st out = (Raise e, st', out') ->
  st' = st
  /\ (truthy persistent_path = false ->
      exn_cls e = ValueError /\ out' = out).
Proof.
  unfold init_chroma. destruct (truthy persistent_path); cbn [negb].
  - cbv zeta.
    destruct (PersistentClient h (absolute h (default [] persistent_path)));
      [discriminate|].
    intros H. injection H as <- <- <-. split; [reflexivity | discriminate].
  - intros H. injection H as <- <- <-. auto.
Qed.

Lemma failed_init_chroma_changes_nothing_witness :
  sample_state = sample_state
  /\ (truthy (Some (lit "db")) = false ->
      exn_cls (mkExn RuntimeError (lit "database is locked: /srv/db"))
        = ValueError
      /\ [lit "Initializing Chroma in persistent mode with path: /srv/db"]
         = []).
Proof.
  apply (failed_init_chroma_changes_nothing locked_host (Some (lit "db"))
           sample_state []).
  vm_compute. reflexivity.
Defined.

(** ** A text file, stored *)

(** The loop of lines 87-98 draws one id per chunk and changes nothing
    else. *)
Lemma build_batch_runs w path content_type total rest :
  forall i documents metadatas ids st cs,
    build_batch w path content_type total i rest documents metadatas ids
      (mkFrame st cs) =
      (Return
         (documents ++ (text <$> rest),
          metadatas
            ++ ((fun j => ChunkMeta path content_type j total)
                  <$> seq i (length rest)),
          ids ++ (uuid4 w <$> seq (uuid_calls st) (length rest))),
       mkFrame
         (mkState (chroma_client st) (add_calls st)
                  (uuid_calls st + length rest))
         cs).
Proof.
  induction rest as [|chunk rest IH]; intros i documents metadatas ids st cs.
  - cbn. rewrite !app_nil_r, Nat.add_0_r. now destruct st.
  - cbn [build_batch]. unfold bind at 1. unfold fresh_uuid at 1.
    cbn [globals chunks]. rewrite IH.
    cbn [chroma_client add_calls uuid_calls length seq fmap list_fmap].
    rewrite <- !app_assoc, Nat.add_succ_r. reflexivity.
Qed.

Lemma seq_draws_distinct (draw : nat -> pystr) n :
  (forall i j, draw i = draw j -> i = j) -> NoDup (draw <$> seq 0 n).
Proof.
  intros Hinj. apply NoDup_fmap_2; [|apply NoDup_seq].
  intros i j. apply Hinj.
Qed.

(** Lines 47-132 for a file that decodes, with nothing failing. *)
Lemma text_call_runs w file_path name override
    st store entries data content chunker cs :
  chroma_client st = Some store ->
  store !! name = Some entries ->
  nodes w !! resolve w file_path = Some (File data) ->
  decode_text data = Some content ->
  is_image
    (resolve_content_type (guess_type w) (resolve w file_path) override)
    = false ->
  RecursiveChunker w 1024 = Return chunker ->
  chunker content = Return cs ->
  fault w VerifyCollection = None ->
  fault w PathResolve = None ->
  fault w PathExists = None ->
  fault w OpenText = None ->
  fault w TextCollection = None ->
  fault w TextAdd = None ->
  let path := resolve w file_path in
  let content_type := resolve_content_type (guess_type w) path override in
  let documents := text <$> cs in
  let metadatas :=
    (fun j => ChunkMeta path content_type j (length cs))
      <$> seq 0 (length cs) in
  let ids := uuid4 w <$> seq (uuid_calls st) (length cs) in
  ingest_file w file_path name override st =
    (Return (IngestResponse (truncate_content content) content_type
               (length content) (length cs)),
     mkState
       (Some (<[name := entries ++ zip_entries documents metadatas ids]>
                store))
       (add_calls st ++ [mkAdd name documents metadatas ids])
       (uuid_calls st + length cs)).
Proof.
  intros Hc Hl Hn Hd Hi Hch Hcs Hv Hr He Hot Hg Ha. cbv zeta.
  eassert (Hbody : ingest_body w file_path name override (mkFrame st None)
                   = (Return _, _)).
  { erewrite ingest_body_found by eassumption. cbv zeta. rewrite Hi, Hch.
    erewrite bind_Return by reflexivity.
    erewrite bind_Return.
    2:{ eapply try_except_Return. unfold text_path.
        erewrite bind_Return by (eapply read_text_decoded; eassumption).
        rewrite Hcs.
        erewrite bind_Return by reflexivity.
        erewrite bind_Return by reflexivity.
        erewrite bind_Return by apply build_batch_runs.
        cbv beta iota zeta. cbn [app].
        erewrite bind_Return by (eapply get_collection_found; eassumption).
        unfold bind, collection_add, ret.
        cbn [globals chunks chroma_client add_calls uuid_calls].
        rewrite Ha, Hc. cbn [fmap option_fmap option_map].
        erewrite alter_found by eassumption. reflexivity. }
    reflexivity. }
  erewrite ingest_file_body_Return by eassumption. reflexivity.
Qed.

(** X11.  A file that decodes, in a collection that exists, with nothing
    failing: the call makes one [add] request with the texts of the
    chunks in order, their records and the next ids [uuid4] gives, one per
    chunk; the collection gains exactly those fragments after the ones it
    had; the answer reports the number of characters of the text as
    [size] and the number of chunks as [chunks_created].  If [uuid4] never
    repeats, the ids differ from each other and from every id drawn
    before. *)
Theorem text_file_stored_in_chunks w file_path name override
    st store entries data content chunker cs :
  chroma_client st = Some store ->
  store !! name = Some entries ->
  nodes w !! resolve w file_path = Some (File data) ->
  decode_text data = Some content ->
  is_image
    (resolve_content_type (guess_type w) (resolve w file_path) override)
    = false ->
  RecursiveChunker w 1024 = Return chunker ->
  chunker content = Return cs ->
  fault w VerifyCollection = None ->
  fault w PathResolve = None ->
  fault w PathExists = None ->
  fault w OpenText = None ->
  fault w TextCollection = None ->
  fault w TextAdd = None ->
  let path := resolve w file_path in
  let content_type := resolve_content_type (guess_type w) path override in
  let documents := text <$> cs in
  let metadatas :=
    (fun j => ChunkMeta path content_type j (length cs))
      <$> seq 0 (length cs) in
  let ids := uuid4 w <$> seq (uuid_calls st) (length cs) in
  ingest_file w file_path name override st =
    (Return (IngestResponse (truncate_content content) content_type
               (length content) (length cs)),
     mkState
       (Some (<[name := entries ++ zip_entries documents metadatas ids]>
                store))
       (add_calls st ++ [mkAdd name documents metadatas ids])
       (uuid_calls st + length cs))
  /\ ((forall i j, uuid4 w i = uuid4 w j -> i = j) ->
      NoDup ((uuid4 w <$> seq 0 (uuid_calls st)) ++ ids)).
Proof.
  intros Hc Hl Hn Hd Hi Hch Hcs Hv Hr He Hot Hg Ha. cbv zeta. split.
  - eapply text_call_runs; eassumption.
  - intros Hinj.
    rewrite <- fmap_app, <- seq_app. now apply seq_draws_distinct.
Qed.

Lemma text_file_stored_in_chunks_witness :
  ingest_file three_paragraphs (lit "/three.txt") (lit "docs") None
    sample_state =
    (Return (IngestResponse [97; 10; 10; 98; 10; 10; 99]%N (lit "text/plain")
               7 3),
     mkState
       (Some {[ lit "docs" :=
                  [mkEntry (numbered_uuid 0) [97; 10; 10]%N
                     (ChunkMeta (lit "/three.txt") (lit "text/plain") 0 3);
                   mkEntry (numbered_uuid 1) [98; 10; 10]%N
                     (ChunkMeta (lit "/three.txt") (lit "text/plain") 1 3);
                   mkEntry (numbered_uuid 2) [99%N]
                     (ChunkMeta (lit "/three.txt") (lit "text/plain") 2 3)]
             ]})
       [mkAdd (lit "docs") [[97; 10; 10]; [98; 10; 10]; [99]]%N
          [ChunkMeta (lit "/three.txt") (lit "text/plain") 0 3;
           ChunkMeta (lit "/three.txt") (lit "text/plain") 1 3;
           ChunkMeta (lit "/three.txt") (lit "text/plain") 2 3]
          [numbered_uuid 0; numbered_uuid 1; numbered_uuid 2]]
       3).
Proof.
  pose proof
    (proj1
       (text_file_stored_in_chunks three_paragraphs (lit "/three.txt")
          (lit "docs") None sample_state {[ lit "docs" := [] ]} []
          [x61; x0a; x0a; x62; x0a; x0a; x63] [97; 10; 10; 98; 10; 10; 99]%N
          (fun content => Return (spec_chunk 1024 content))
          (spec_chunk 1024 [97; 10; 10; 98; 10; 10; 99]%N)
          eq_refl eq_refl eq_refl eq_refl eq_refl eq_refl eq_refl
          eq_refl eq_refl eq_refl eq_refl eq_refl eq_refl)) as H.
  vm_compute in H. vm_compute. exact H.
Defined.

(** ** What a call does to the state *)

(** A call changes the state in three ways only: it draws an id, it has a
    request for the named collection accepted, or refused.  A relation
    that contains these steps and is reflexive and transitive holds
    between the state before and the state after every call. *)
Section Invariant.

Variable w : World.
Variable name : pystr.
Variable I : State -> State -> Prop.

Hypothesis I_refl : forall st, I st st.
Hypothesis I_trans : forall st1 st2 st3, I st1 st2 -> I st2 st3 -> I st1 st3.
Hypothesis I_uuid :
  forall st,
    I st (mkState (chroma_client st) (add_calls st) (S (uuid_calls st))).
Hypothesis I_refused :
  forall st documents metadatas ids,
    I st (mkState (chroma_client st)
            (add_calls st ++ [mkAdd name documents metadatas ids])
            (uuid_calls st)).
Hypothesis I_accepted :
  forall st documents metadatas ids,
    I st (mkState
            (alter (fun old => old ++ zip_entries documents metadatas ids)
                   name <$> chroma_client st)
            (add_calls st ++ [mkAdd name documents metadatas ids])
            (uuid_calls st)).

Lemma keeps_ret {A} (a : A) : keeps I (ret a).
Proof. intros fr r fr' H. injection H as <- <-. apply I_refl. Qed.

Lemma keeps_raise {A} (e : exn) : keeps I (@raise A e).
Proof. intros fr r fr' H. injection H as <- <-. apply I_refl. Qed.

Lemma keeps_lift {A} (r : result A) : keeps I (lift r).
Proof. destruct r; [apply keeps_ret | apply keeps_raise]. Qed.

Lemma keeps_bind {A B} (m : M A) (k : A -> M B) :
  keeps I m -> (forall a, keeps I (k a)) -> keeps I (bind m k).
Proof.
  intros Hm Hk fr r fr' H. unfold bind in H.
  destruct (m fr) as [[a|e] fr1] eqn:Hm1.
  - eapply I_trans; [exact (Hm _ _ _ Hm1) | exact (Hk a _ _ _ H)].
  - injection H as <- <-. exact (Hm _ _ _ Hm1).
Qed.

Lemma keeps_try {A} (body : M A) cls (handler : exn -> M A) :
  keeps I body -> (forall e, keeps I (handler e)) ->
  keeps I (try_except body cls handler).
Proof.
  intros Hb Hh fr r fr' H. unfold try_except in H.
  destruct (body fr) as [[a|e] fr1] eqn:Hb1.
  - injection H as <- <-. exact (Hb _ _ _ Hb1).
  - destruct (isinstance e cls).
    + eapply I_trans; [exact (Hb _ _ _ Hb1) | exact (Hh e _ _ _ H)].
    + injection H as <- <-. exact (Hb _ _ _ Hb1).
Qed.

Lemma keeps_external {A} s (work : M A) :
  keeps I work -> keeps I (external w s work).
Proof.
  intros Hw fr r fr' H. unfold external in H.
  destruct (fault w s); [injection H as <- <-; apply I_refl | eauto].
Qed.

Lemma keeps_get_collection s collection : keeps I (get_collection w s collection).
Proof.
  apply keeps_external. intros fr r fr' H.
  destruct (chroma_client (globals fr)) as [store|];
    [destruct (store !! collection)|]; injection H as <- <-; apply I_refl.
Qed.

Lemma keeps_read_bytes s path : keeps I (read_bytes w s path).
Proof.
  apply keeps_external.
  destruct (nodes w !! path) as [[data|]|];
    [apply keeps_ret | apply keeps_raise | apply keeps_raise].
Qed.

Lemma keeps_read_text path : keeps I (read_text w path).
Proof.
  apply keeps_bind; [apply keeps_read_bytes|]. intros data.
  destruct (decode_text data); [apply keeps_ret | apply keeps_raise].
Qed.

Lemma keeps_fresh_uuid : keeps I (fresh_uuid w).
Proof. intros fr r fr' H. injection H as <- <-. apply I_uuid. Qed.

Lemma keeps_collection_add s documents metadatas ids :
  keeps I (collection_add w s name documents metadatas ids).
Proof.
  intros fr r fr' H. unfold collection_add in H.
  destruct (fault w s); injection H as <- <-;
    [apply I_refused | apply I_accepted].
Qed.

Lemma keeps_build_batch path content_type total rest :
  forall i documents metadatas ids,
    keeps I (build_batch w path content_type total i rest
               documents metadatas ids).
Proof.
  induction rest as [|chunk rest IH]; intros i documents metadatas ids.
  - apply keeps_ret.
  - cbn [build_batch]. apply keeps_bind; [apply keeps_fresh_uuid|].
    intros chunk_id. apply IH.
Qed.

Lemma keeps_text_path chunker path content_type :
  keeps I (text_path w chunker path content_type name).
Proof.
  unfold text_path.
  apply keeps_bind; [apply keeps_read_text|]. intros content.
  apply keeps_bind; [apply keeps_lift|]. intros cs.
  apply keeps_bind.
  { intros fr r fr' H. injection H as <- <-. apply I_refl. }
  intros _.
  apply keeps_bind; [apply keeps_build_batch|].
  intros [[documents metadatas] ids].
  apply keeps_bind; [apply keeps_get_collection|]. intros _.
  apply keeps_bind; [apply keeps_collection_add|]. intros _.
  apply keeps_ret.
Qed.

Lemma keeps_binary_path path content_type :
  keeps I (binary_path w path content_type name).
Proof.
  unfold binary_path.
  apply keeps_bind; [apply keeps_read_bytes|]. intros data.
  apply keeps_bind; [apply keeps_get_collection|]. intros _.
  apply keeps_bind; [apply keeps_fresh_uuid|]. intros chunk_id.
  apply keeps_bind; [apply keeps_collection_add|]. intros _.
  apply keeps_ret.
Qed.

Lemma keeps_ingest_body file_path override :
  keeps I (ingest_body w file_path name override).
Proof.
  unfold ingest_body.
  apply keeps_bind; [apply keeps_external, keeps_ret|]. intros path.
  apply keeps_bind; [apply keeps_external, keeps_ret|]. intros found.
  destruct (negb found); [apply keeps_ret|]. cbv zeta.
  destruct (is_image _).
  - apply keeps_bind; [apply keeps_read_bytes|]. intros data.
    apply keeps_ret.
  - apply keeps_bind; [apply keeps_lift|]. intros chunker.
    apply keeps_bind.
    { apply keeps_try; [apply keeps_text_path|].
      intros _. apply keeps_binary_path. }
    intros [content size].
    apply keeps_bind.
    { intros fr r fr' H. injection H as <- <-. apply I_refl. }
    intros cs. apply keeps_ret.
Qed.

Lemma ingest_file_keeps file_path override st r st' :
  ingest_file w file_path name override st = (r, st') -> I st st'.
Proof.
  unfold ingest_file. destruct (chroma_client st).
  - match goal with
    | |- (let '(_, _) := ?run _ in _) = _ -> _ =>
        assert (Hk : keeps I run)
    end.
    { apply keeps_bind.
      - apply keeps_try; [|intros e; apply keeps_ret].
        apply keeps_bind; [apply keeps_get_collection|].
        intros _. apply keeps_ret.
      - intros [resp|]; [apply keeps_ret|].
        apply keeps_try; [apply keeps_ingest_body|].
        intros e. apply keeps_ret. }
    match goal with
    | |- (let '(_, _) := ?run ?fr in _) = _ -> _ =>
        destruct (run fr) as [r1 fr1] eqn:Hrun
    end.
    intros H. injection H as <- <-. exact (Hk _ _ _ Hrun).
  - intros H. injection H as <- <-. apply I_refl.
Qed.

End Invariant.

Lemma alter_append_nil (store : gmap pystr (list entry)) name :
  alter (fun old => old ++ []) name store = store.
Proof.
  apply map_eq. intros j. rewrite lookup_alter.
  destruct (decide (name = j)) as [<-|]; [|reflexivity].
  destruct (store !! name); cbn; now rewrite ?app_nil_r.
Qed.

Lemma alter_append_twice (store : gmap pystr (list entry)) name e1 e2 :
  alter (fun old => old ++ e2) name (alter (fun old => old ++ e1) name store)
  = alter (fun old => old ++ (e1 ++ e2)) name store.
Proof.
  apply map_eq. intros j. rewrite !lookup_alter.
  repeat case_decide; try congruence.
  destruct (store !! name); cbn; now rewrite ?app_assoc.
Qed.

(** X12.  With the store of section 6, which appends what it accepts: a
    call leaves every collection but the one it names exactly as it was,
    keeps the fragments the named collection had, in place, and only adds
    after them; it creates no collection and removes none. *)
Theorem only_named_collection_grows w file_path name override st store r st' :
  chroma_client st = Some store ->
  ingest_file w file_path name override st = (r, st') ->
  exists store' extra,
    chroma_client st' = Some store'
    /\ store' !! name = (fun old => old ++ extra) <$> store !! name
    /\ forall other, other <> name -> store' !! other = store !! other.
Proof.
  intros Hc Hrun.
  assert (Hrel : exists extra,
             chroma_client st'
             = alter (fun old => old ++ extra) name <$> chroma_client st).
  { revert Hrun.
    apply (ingest_file_keeps w name
             (fun a b =>
                exists extra,
                  chroma_client b
                  = alter (fun old => old ++ extra) name <$> chroma_client a)).
    - intros a. exists []. destruct (chroma_client a); cbn; [|reflexivity].
      now rewrite alter_append_nil.
    - intros a b c [e1 H1] [e2 H2]. exists (e1 ++ e2). rewrite H2, H1.
      destruct (chroma_client a); cbn; [|reflexivity].
      now rewrite alter_append_twice.
    - intros a. exists []. cbn. destruct (chroma_client a); cbn; [|reflexivity].
      now rewrite alter_append_nil.
    - intros a documents metadatas ids. exists []. cbn.
      destruct (chroma_client a); cbn; [|reflexivity].
      now rewrite alter_append_nil.
    - intros a documents metadatas ids.
      now exists (zip_entries documents metadatas ids). }
  destruct Hrel as [extra Hrel]. rewrite Hc in Hrel. cbn in Hrel.
  exists (alter (fun old => old ++ extra) name store), extra.
  split; [exact Hrel|]. split.
  - rewrite lookup_alter. now destruct (decide (name = name)).
  - intros other Hne. rewrite lookup_alter.
    destruct (decide (name = other)); [congruence | reflexivity].
Qed.

Lemma only_named_collection_grows_witness :
  exists store' extra,
    chroma_client
      (snd (ingest_file three_paragraphs (lit "/three.txt") (lit "docs") None
              sample_state)) = Some store'
    /\ store' !! lit "docs"
       = (fun old => old ++ extra)
           <$> ({[ lit "docs" := [] ]} : gmap pystr (list entry)) !! lit "docs"
    /\ forall other,
         other <> lit "docs" ->
         store' !! other
         = ({[ lit "docs" := [] ]} : gmap pystr (list entry)) !! other.
Proof.
  eapply (only_named_collection_grows three_paragraphs (lit "/three.txt")
            (lit "docs") None sample_state);
    [reflexivity | apply surjective_pairing].
Defined.

Lemma failures_past_verification_are_returned_witness :
  exists resp,
    fst (ingest_file empty_notes_strict_store (lit "/empty.txt") (lit "docs")
           None sample_state) = Return resp.
Proof.
  apply (failures_past_verification_are_returned empty_notes_strict_store).
  - intros [] e H; vm_compute in H; try discriminate H.
    injection H as <-. reflexivity.
  - intros e H. vm_compute in H. discriminate H.
  - intros chunker content e H. vm_compute in H. injection H as <-.
    discriminate.
  - intros e H. vm_compute in H. discriminate H.
Defined.

(** ** The same file twice *)

(** X13.  Ingesting is not idempotent.  A second call for the same file,
    with nothing failing, gives the same answer as the first and appends
    the same documents with the same records once more, under the ids
    [uuid4] draws next: the collection then holds both copies, the
    second after the first. *)
Theorem second_ingest_appends_again w file_path name override
    st store entries data content chunker cs :
  chroma_client st = Some store ->
  store !! name = Some entries ->
  nodes w !! resolve w file_path = Some (File data) ->
  decode_text data = Some content ->
  is_image
    (resolve_content_type (guess_type w) (resolve w file_path) override)
    = false ->
  RecursiveChunker w 1024 = Return chunker ->
  chunker content = Return cs ->
  fault w VerifyCollection = None ->
  fault w PathResolve = None ->
  fault w PathExists = None ->
  fault w OpenText = None ->
  fault w TextCollection = None ->
  fault w TextAdd = None ->
  let path := resolve w file_path in
  let content_type := resolve_content_type (guess_type w) path override in
  let documents := text <$> cs in
  let metadatas :=
    (fun j => ChunkMeta path content_type j (length cs))
      <$> seq 0 (length cs) in
  let first_ids := uuid4 w <$> seq (uuid_calls st) (length cs) in
  let second_ids :=
    uuid4 w <$> seq (uuid_calls st + length cs) (length cs) in
  let first := ingest_file w file_path name override st in
  let second := ingest_file w file_path name override (snd first) in
  fst second = fst first
  /\ snd second =
       mkState
         (Some (<[name := entries
                          ++ zip_entries documents metadatas first_ids
                          ++ zip_entries documents metadatas second_ids]>
                  store))
         (add_calls st
            ++ [mkAdd name documents metadatas first_ids;
                mkAdd name documents metadatas second_ids])
         (uuid_calls st + length cs + length cs).
Proof.
  intros Hc Hl Hn Hd Hi Hch Hcs Hv Hr He Hot Hg Ha. cbv zeta.
  rewrite (text_call_runs w file_path name override st store entries data
             content chunker cs) by assumption.
  cbn [snd fst].
  match goal with
  | |- context [ingest_file w file_path name override ?st1] =>
      rewrite (text_call_runs w file_path name override st1 _ _ data content
                 chunker cs eq_refl (lookup_insert_eq _ _ _)) by assumption
  end.
  cbn [snd fst chroma_client add_calls uuid_calls]. split; [reflexivity|].
  rewrite insert_insert_eq, <- !app_assoc. reflexivity.
Qed.

Lemma second_ingest_appends_again_witness :
  fst (ingest_file three_paragraphs (lit "/three.txt") (lit "docs") None
         (snd (ingest_file three_paragraphs (lit "/three.txt") (lit "docs")
                 None sample_state)))
  = fst (ingest_file three_paragraphs (lit "/three.txt") (lit "docs") None
           sample_state)
  /\ add_ids <$>
       add_calls
         (snd (ingest_file three_paragraphs (lit "/three.txt") (lit "docs")
                 None
                 (snd (ingest_file three_paragraphs (lit "/three.txt")
                         (lit "docs") None sample_state))))
     = [[numbered_uuid 0; numbered_uuid 1; numbered_uuid 2];
        [numbered_uuid 3; numbered_uuid 4; numbered_uuid 5]].
Proof.
  pose proof
    (second_ingest_appends_again three_paragraphs (lit "/three.txt")
       (lit "docs") None sample_state {[ lit "docs" := [] ]} []
       [x61; x0a; x0a; x62; x0a; x0a; x63] [97; 10; 10; 98; 10; 10; 99]%N
       (fun content => Return (spec_chunk 1024 content))
       (spec_chunk 1024 [97; 10; 10; 98; 10; 10; 99]%N)
       eq_refl eq_refl eq_refl eq_refl eq_refl eq_refl eq_refl
       eq_refl eq_refl eq_refl eq_refl eq_refl eq_refl) as [H1 H2].
  split; [exact H1|]. cbv zeta in H2. rewrite H2. vm_compute. reflexivity.
Defined.

(** ** A decoding error that is not the file's *)

(** X14.  The handler of line 104 takes every [UnicodeDecodeError] raised
    between lines 74 and 102, not only those of reading the file.  When
    the file decodes and is chunked but the store answers the batch with a
    [UnicodeDecodeError], the call stores the placeholder of the binary
    path instead, reports the number of bytes as [size], and, [chunks]
    being bound by then, reports the number of chunks as [chunks_created]
    although one fragment was stored. *)
Theorem decode_error_from_store_falls_back w file_path name override
    st store entries data content chunker cs e :
  chroma_client st = Some store ->
  store !! name = Some entries ->
  nodes w !! resolve w file_path = Some (File data) ->
  decode_text data = Some content ->
  is_image
    (resolve_content_type (guess_type w) (resolve w file_path) override)
    = false ->
  RecursiveChunker w 1024 = Return chunker ->
  chunker content = Return cs ->
  fault w VerifyCollection = None ->
  fault w PathResolve = None ->
  fault w PathExists = None ->
  fault w OpenText = None ->
  fault w TextCollection = None ->
  fault w TextAdd = Some e ->
  isinstance e UnicodeDecodeError = true ->
  fault w OpenBinary = None ->
  fault w BinaryCollection = None ->
  fault w BinaryAdd = None ->
  let path := resolve w file_path in
  let content_type := resolve_content_type (guess_type w) path override in
  let documents := text <$> cs in
  let metadatas :=
    (fun j => ChunkMeta path content_type j (length cs))
      <$> seq 0 (length cs) in
  let ids := uuid4 w <$> seq (uuid_calls st) (length cs) in
  let placeholder := binary_placeholder content_type (length data) in
  let record := BinaryMeta path content_type true in
  let chunk_id := uuid4 w (uuid_calls st + length cs) in
  ingest_file w file_path name override st =
    (Return (IngestResponse (truncate_content placeholder) content_type
               (length data) (length cs)),
     mkState
       (Some (<[name := entries ++ [mkEntry chunk_id placeholder record]]>
                store))
       (add_calls st
          ++ [mkAdd name documents metadatas ids;
              mkAdd name [placeholder] [record] [chunk_id]])
       (S (uuid_calls st + length cs))).
Proof.
  intros Hc Hl Hn Hd Hi Hch Hcs Hv Hr He Hot Hg Ha Hcls Hob Hbg Hba.
  cbv zeta.
  eassert (Hbody : ingest_body w file_path name override (mkFrame st None)
                   = (Return _, _)).
  { erewrite ingest_body_found by eassumption. cbv zeta. rewrite Hi, Hch.
    erewrite bind_Return by reflexivity.
    erewrite bind_Return.
    2:{ erewrite try_except_caught; cycle 1.
        - unfold text_path.
          erewrite bind_Return by (eapply read_text_decoded; eassumption).
          rewrite Hcs.
          erewrite bind_Return by reflexivity.
          erewrite bind_Return by reflexivity.
          erewrite bind_Return by apply build_batch_runs.
          cbv beta iota zeta. cbn [app].
          erewrite bind_Return by (eapply get_collection_found; eassumption).
          eapply bind_Raise. unfold collection_add.
          cbn [globals chunks chroma_client add_calls uuid_calls].
          rewrite Ha. reflexivity.
        - exact Hcls.
        - eapply binary_path_runs; eassumption. }
    reflexivity. }
  erewrite ingest_file_body_Return by eassumption.
  cbn [globals chunks chroma_client add_calls uuid_calls].
  rewrite <- app_assoc. reflexivity.
Qed.

Lemma decode_error_from_store_falls_back_witness :
  fst (ingest_file three_paragraphs_garbling_store (lit "/three.txt")
         (lit "docs") None sample_state)
  = Return
      (IngestResponse (lit "<Binary data of type text/plain, size 7 bytes>")
         (lit "text/plain") 7 3).
Proof.
  pose proof
    (f_equal fst
       (decode_error_from_store_falls_back three_paragraphs_garbling_store
          (lit "/three.txt") (lit "docs") None sample_state
          {[ lit "docs" := [] ]} [] [x61; x0a; x0a; x62; x0a; x0a; x63]
          [97; 10; 10; 98; 10; 10; 99]%N
          (fun content => Return (spec_chunk 1024 content))
          (spec_chunk 1024 [97; 10; 10; 98; 10; 10; 99]%N)
          (mkExn UnicodeDecodeError
             (lit "'utf-8' codec can't decode byte 0xff in position 0"))
          eq_refl eq_refl eq_refl eq_refl eq_refl eq_refl eq_refl
          eq_refl eq_refl eq_refl eq_refl eq_refl eq_refl eq_refl
          eq_refl eq_refl eq_refl)) as H.
  vm_compute in H. vm_compute. exact H.
Defined.


(** ** Chunk metadata *)

(** Lines 74-102 for a file that decodes, up to the answer of the store to
    the batch: the batch is on record either way. *)
Lemma text_path_issues w chunker path content_type name
    st store entries data content cs :
  chroma_client st = Some store ->
  store !! name = Some entries ->
  fault w OpenText = None ->
  fault w TextCollection = None ->
  nodes w !! path = Some (File data) ->
  decode_text data = Some content ->
  chunker content = Return cs ->
  let documents := text <$> cs in
  let metadatas :=
    (fun j => ChunkMeta path content_type j (length cs))
      <$> seq 0 (length cs) in
  let ids := uuid4 w <$> seq (uuid_calls st) (length cs) in
  let issued := add_calls st ++ [mkAdd name documents metadatas ids] in
  text_path w chunker path content_type name (mkFrame st None) =
    match fault w TextAdd with
    | Some e =>
        (Raise e,
         mkFrame (mkState (Some store) issued (uuid_calls st + length cs))
                 (Some cs))
    | None =>
        (Return (content, length content),
         mkFrame
           (mkState
              (Some (<[name := entries
                               ++ zip_entries documents metadatas ids]>
                       store))
              issued (uuid_calls st + length cs))
           (Some cs))
    end.
Proof.
  intros Hc Hl Ho Hg Hn Hd Hcs. cbv zeta. unfold text_path.
  erewrite bind_Return by (eapply read_text_decoded; eassumption).
  rewrite Hcs.
  erewrite bind_Return by reflexivity.
  erewrite bind_Return by reflexivity.
  erewrite bind_Return by apply build_batch_runs.
  cbv beta iota zeta. cbn [app].
  erewrite bind_Return by (eapply get_collection_found; eassumption).
  unfold bind, collection_add, ret.
  cbn [globals chunks chroma_client add_calls uuid_calls].
  destruct (fault w TextAdd); rewrite Hc; [reflexivity|].
  cbn [fmap option_fmap option_map].
  erewrite alter_found by eassumption. reflexivity.
Qed.

(** The handler of line 104 asks the store for placeholders only. *)
Lemma binary_path_only_placeholders w path content_type name :
  spec (fun _ => True)
    (fun call =>
       exists text_ chunk_id,
         call = mkAdd name [text_] [BinaryMeta path content_type true]
                  [chunk_id])
    (binary_path w path content_type name) (fun _ => True).
Proof.
  unfold binary_path.
  eapply spec_bind; [apply spec_read_bytes; intros; exact I|].
  intros data _. cbv beta zeta.
  eapply spec_bind; [apply spec_get_collection; intros; exact I|].
  intros _ _.
  eapply spec_bind; [apply spec_fresh_uuid|]. intros chunk_id _.
  eapply spec_bind; [apply spec_collection_add; eauto|].
  intros _ _. now apply spec_ret.
Qed.

Lemma bind_inv {A B} (m : M A) (k : A -> M B) fr r fr' :
  bind m k fr = (r, fr') ->
  (exists a fr1, m fr = (Return a, fr1) /\ k a fr1 = (r, fr'))
  \/ (exists e, m fr = (Raise e, fr') /\ r = Raise e).
Proof.
  unfold bind. destruct (m fr) as [[a|e] fr1]; intros H.
  - left. eauto.
  - injection H as <- <-. right. eauto.
Qed.

(** C4.  A call that reaches the text path with a file that decodes and a
    chunker that returns [n] chunks makes exactly one batch request and
    makes it first: its documents are the chunk texts in order, its [n]
    records carry the [chunk_index] values [0, 1, ..., n-1] in that order
    and [total_chunks = n] each.  Any request after it is a binary
    placeholder, and when the store accepts the batch there is none and
    the collection holds the [n] fragments after those it had. *)
Theorem chunk_indices_contiguous w file_path name override
    st store entries data content chunker cs r st' :
  chroma_client st = Some store ->
  store !! name = Some entries ->
  nodes w !! resolve w file_path = Some (File data) ->
  decode_text data = Some content ->
  is_image
    (resolve_content_type (guess_type w) (resolve w file_path) override)
    = false ->
  RecursiveChunker w 1024 = Return chunker ->
  chunker content = Return cs ->
  fault w VerifyCollection = None ->
  fault w PathResolve = None ->
  fault w PathExists = None ->
  fault w OpenText = None ->
  fault w TextCollection = None ->
  ingest_file w file_path name override st = (r, st') ->
  exists batch more,
    new_calls st st' = batch :: more
    /\ add_collection batch = name
    /\ add_documents batch = text <$> cs
    /\ add_metadatas batch =
         (fun j =>
            ChunkMeta (resolve w file_path)
              (resolve_content_type (guess_type w) (resolve w file_path)
                 override)
              j (length cs))
           <$> seq 0 (length cs)
    /\ length (add_ids batch) = length cs
    /\ meta_chunk_index <$> add_metadatas batch = Some <$> seq 0 (length cs)
    /\ Forall (fun m => meta_total_chunks m = Some (length cs))
         (add_metadatas batch)
    /\ Forall (fun call =>
                 exists source_file content_type,
                   add_metadatas call
                   = [BinaryMeta source_file content_type true])
         more
    /\ (fault w TextAdd = None ->
        more = []
        /\ chroma_client st' =
             Some (<[name := entries
                              ++ zip_entries (add_documents batch)
                                   (add_metadatas batch) (add_ids batch)]>
                     store)).
Proof.
  intros Hc Hl Hn Hd Hi Hch Hcs Hv Hr He Hot Hg Hrun.
  set (path := resolve w file_path) in *.
  set (content_type := resolve_content_type (guess_type w) path override)
    in *.
  set (metadatas := (fun j => ChunkMeta path content_type j (length cs))
                      <$> seq 0 (length cs)).
  set (ids := uuid4 w <$> seq (uuid_calls st) (length cs)).
  set (batch := mkAdd name (text <$> cs) metadatas ids).
  (* the state after the inner [try] *)
  assert (Htry : forall r2 fr2,
             try_except (text_path w chunker path content_type name)
               UnicodeDecodeError
               (fun _ => binary_path w path content_type name)
               (mkFrame st None) = (r2, fr2) ->
             exists more,
               add_calls (globals fr2) = add_calls st ++ batch :: more
               /\ Forall (fun call =>
                            exists source_file content_type,
                              add_metadatas call
                              = [BinaryMeta source_file content_type true])
                    more
               /\ (fault w TextAdd = None ->
                   more = []
                   /\ chroma_client (globals fr2) =
                        Some (<[name := entries
                                         ++ zip_entries (text <$> cs)
                                              metadatas ids]> store))).
  { intros r2 fr2. unfold try_except.
    rewrite (text_path_issues w chunker path content_type name st store
               entries data content cs) by assumption.
    destruct (fault w TextAdd) as [e|] eqn:Ha.
    - destruct (isinstance e UnicodeDecodeError).
      + intros Hb.
        destruct (binary_path_only_placeholders _ _ _ _ _ _ _ Hb)
          as [(new & Hnew & Hall) _].
        exists new. cbn [globals add_calls] in Hnew.
        rewrite Hnew, <- app_assoc. split; [reflexivity|].
        split; [|discriminate].
        eapply Forall_impl; [exact Hall|].
        intros call (text_ & chunk_id & ->). cbn. eauto.
      + intros H. injection H as <- <-. exists [].
        split; [reflexivity|]. split; [constructor | discriminate].
    - intros H. injection H as <- <-. exists [].
      split; [reflexivity|]. split; [constructor|]. intros _. auto. }
  (* the state after the body of the outer [try] *)
  assert (Hbody : forall rb frb,
             ingest_body w file_path name override (mkFrame st None)
               = (rb, frb) ->
             exists r2, try_except (text_path w chunker path content_type name)
                          UnicodeDecodeError
                          (fun _ => binary_path w path content_type name)
                          (mkFrame st None) = (r2, frb)).
  { intros rb frb.
    erewrite ingest_body_found by eassumption. cbv zeta.
    fold path. fold content_type. rewrite Hi, Hch.
    erewrite bind_Return by reflexivity.
    intros H. apply bind_inv in H as [(read & fr2 & Ht & H)|(e & Ht & _)].
    - destruct read as [content' size]. unfold bind, get_chunks, ret in H.
      injection H as _ <-. eauto.
    - eauto. }
  erewrite ingest_file_verified in Hrun by eassumption.
  unfold try_except in Hrun.
  destruct (ingest_body w file_path name override (mkFrame st None))
    as [rb frb] eqn:Hb.
  destruct (Hbody _ _ eq_refl) as [r2 Ht].
  destruct (Htry _ _ Ht) as (more & Hcalls & Hmore & Haccept).
  assert (Hst : st' = globals frb).
  { destruct rb as [resp|e]; [|destruct (isinstance e Exception)];
      cbn [ret] in Hrun; now injection Hrun. }
  subst st'. exists batch, more.
  split; [now apply new_calls_appended|].
  split; [reflexivity|]. split; [reflexivity|]. split; [reflexivity|].
  split; [unfold batch, ids; cbn; now rewrite length_fmap, length_seq|].
  split; [unfold batch, metadatas; cbn;
          now rewrite <- list_fmap_compose|].
  split; [unfold batch, metadatas; cbn; rewrite Forall_fmap;
          now apply Forall_forall|].
  split; [exact Hmore | exact Haccept].
Qed.

Lemma chunk_indices_contiguous_witness :
  exists batch more,
    new_calls sample_state
      (snd (ingest_file three_paragraphs (lit "/three.txt") (lit "docs") None
              sample_state)) = batch :: more
    /\ add_collection batch = lit "docs"
    /\ add_documents batch
       = text <$> spec_chunk 1024 [97; 10; 10; 98; 10; 10; 99]%N
    /\ add_metadatas batch =
         (fun j =>
            ChunkMeta (resolve three_paragraphs (lit "/three.txt"))
              (resolve_content_type (guess_type three_paragraphs)
                 (resolve three_paragraphs (lit "/three.txt")) None)
              j (length (spec_chunk 1024 [97; 10; 10; 98; 10; 10; 99]%N)))
           <$> seq 0 (length (spec_chunk 1024 [97; 10; 10; 98; 10; 10; 99]%N))
    /\ length (add_ids batch)
       = length (spec_chunk 1024 [97; 10; 10; 98; 10; 10; 99]%N)
    /\ meta_chunk_index <$> add_metadatas batch
       = Some <$> seq 0 (length (spec_chunk 1024 [97; 10; 10; 98; 10; 10; 99]%N))
    /\ Forall (fun m =>
                 meta_total_chunks m
                 = Some (length (spec_chunk 1024
                                   [97; 10; 10; 98; 10; 10; 99]%N)))
         (add_metadatas batch)
    /\ Forall (fun call =>
                 exists source_file content_type,
                   add_metadatas call
                   = [BinaryMeta source_file content_type true])
         more
    /\ (fault three_paragraphs TextAdd = None ->
        more = []
        /\ chroma_client
             (snd (ingest_file three_paragraphs (lit "/three.txt")
                     (lit "docs") None sample_state)) =
             Some (<[lit "docs" := [] ++ zip_entries (add_documents batch)
                                          (add_metadatas batch)
                                          (add_ids batch)]>
                     {[ lit "docs" := [] ]})).
Proof.
  eapply (chunk_indices_contiguous three_paragraphs (lit "/three.txt")
            (lit "docs") None sample_state {[ lit "docs" := [] ]} []
            [x61; x0a; x0a; x62; x0a; x0a; x63]
            [97; 10; 10; 98; 10; 10; 99]%N
            (fun content => Return (spec_chunk 1024 content))
            (spec_chunk 1024 [97; 10; 10; 98; 10; 10; 99]%N)
            (fst (ingest_file three_paragraphs (lit "/three.txt")
                    (lit "docs") None sample_state)));
    reflexivity.
Defined.


(** ** Where the code misses *)

(** C1.  An empty file, whose text the chunker makes no chunk of, is not
    kept from the store: lines 101-102 send the request without documents
    all the same, and when the store refuses it, with an [Exception] that
    is no [UnicodeDecodeError], the call answers with an error instead of
    a result with no chunk.  The refused request is on record. *)
Theorem empty_file_answered_with_error w file_path name override
    st store entries data chunker e :
  chroma_client st = Some store ->
  store !! name = Some entries ->
  nodes w !! resolve w file_path = Some (File data) ->
  decode_text data = Some [] ->
  is_image
    (resolve_content_type (guess_type w) (resolve w file_path) override)
    = false ->
  RecursiveChunker w 1024 = Return chunker ->
  chunker [] = Return [] ->
  fault w VerifyCollection = None ->
  fault w PathResolve = None ->
  fault w PathExists = None ->
  fault w OpenText = None ->
  fault w TextCollection = None ->
  fault w TextAdd = Some e ->
  isinstance e Exception = true ->
  isinstance e UnicodeDecodeError = false ->
  ingest_file w file_path name override st =
    (Return (ErrorResponse (lit "Error reading file: " ++ exn_str e)),
     mkState (Some store) (add_calls st ++ [mkAdd name [] [] []])
             (uuid_calls st)).
Proof.
  intros Hc Hl Hn Hd Hi Hch Hempty Hv Hr He Hot Hg Ha Hexc Hdec.
  assert (Hbody : ingest_body w file_path name override (mkFrame st None)
                  = (Raise e,
                     mkFrame
                       (mkState (Some store)
                          (add_calls st ++ [mkAdd name [] [] []])
                          (uuid_calls st))
                       (Some []))).
  { erewrite ingest_body_found by eassumption. cbv zeta. rewrite Hi, Hch.
    erewrite bind_Return by reflexivity.
    eapply bind_Raise. eapply try_except_missed; [|exact Hdec].
    rewrite (text_path_issues w chunker _ _ name st store entries data [] [])
      by assumption.
    rewrite Ha. cbn [length fmap list_fmap seq]. now rewrite Nat.add_0_r. }
  erewrite ingest_file_verified by eassumption.
  rewrite (try_except_caught _ _ _ _ _ _ Hbody Hexc). reflexivity.
Qed.

Lemma empty_file_answered_with_error_witness :
  ingest_file empty_notes_strict_store (lit "/empty.txt") (lit "docs") None
    sample_state =
    (Return
       (ErrorResponse
          (lit "Error reading file: "
             ++ lit "Expected IDs to be a non-empty list, got 0 IDs in add.")),
     mkState (Some {[ lit "docs" := [] ]})
             (add_calls sample_state ++ [mkAdd (lit "docs") [] [] []])
             (uuid_calls sample_state)).
Proof.
  apply (empty_file_answered_with_error empty_notes_strict_store
           (lit "/empty.txt") (lit "docs") None sample_state
           {[ lit "docs" := [] ]} [] []
           (fun content => Return (spec_chunk 1024 content))
           (mkExn ValueError
              (lit "Expected IDs to be a non-empty list, got 0 IDs in add.")));
    reflexivity.
Defined.

(** C5.  The handler of line 41 knows one way of reporting a missing
    collection.  When the collection is not in the store and the store
    says so with an exception that is no [ValueError], the call answers
    with no dictionary: the report leaves the function as the exception it
    is, and the state is as it was. *)
Theorem missing_collection_report_escapes w file_path name override
    st store e :
  chroma_client st = Some store ->
  store !! name = None ->
  fault w VerifyCollection = Some e ->
  isinstance e ValueError = false ->
  ingest_file w file_path name override st = (Raise e, st).
Proof.
  intros Hc _ Hf Hv. eapply verification_failure_escapes; eassumption.
Qed.

Lemma missing_collection_report_escapes_witness :
  ingest_file notes_other_store (lit "/notes.txt") (lit "papers") None
    sample_state
  = (Raise (mkExn NotFoundError (lit "Collection [papers] does not exist")),
     sample_state).
Proof.
  apply (missing_collection_report_escapes notes_other_store
           (lit "/notes.txt") (lit "papers") None sample_state
           {[ lit "docs" := [] ]});
    reflexivity.
Defined.

(** ** After start-up *)

Lemma client_kept w file_path name override st r st' :
  chroma_client st <> None ->
  ingest_file w file_path name override st = (r, st') ->
  chroma_client st' <> None.
Proof.
  intros Hc Hrun. revert Hc. revert Hrun.
  apply (ingest_file_keeps w name
           (fun a b => chroma_client a <> None -> chroma_client b <> None)).
  - auto.
  - auto.
  - auto.
  - auto.
  - intros a documents metadatas ids. cbn.
    destruct (chroma_client a); [discriminate | auto].
Qed.

Lemma later_initialised st s :
  chroma_client st <> None -> later st s -> chroma_client s <> None.
Proof.
  intros Hc Hl. induction Hl as [|w file_path name override s Hl IH];
    [exact Hc|].
  eapply client_kept; [exact IH | apply surjective_pairing].
Qed.

(** X9.  Once [init_chroma] has returned, no later call answers that the
    client is not initialised, whatever calls were made in between and
    whatever happened in them: a call never takes the client away.  The
    requests on record and the ids drawn are untouched by the
    initialisation, and one line was printed. *)
Theorem initialised_after_init_chroma h persistent_path st out st' out' :
  init_chroma h persistent_path st out = (Return tt, st', out') ->
  (forall s,
      later st' s ->
      forall w file_path name override,
        fst (ingest_file w file_path name override s)
        <> Return (ErrorResponse (lit "Chroma client not initialized")))
  /\ add_calls st' = add_calls st
  /\ uuid_calls st' = uuid_calls st
  /\ length out' = S (length out).
Proof.
  unfold init_chroma. destruct (negb (truthy persistent_path)); [discriminate|].
  cbv zeta.
  destruct (PersistentClient h (absolute h (default [] persistent_path)))
    as [store|e]; [|discriminate].
  intros H. injection H as <- <-. split; [|split; [|split]].
  - intros s Hl w file_path name override.
    destruct (ingest_file _ _ _ _ _) as [r st2] eqn:Hrun.
    eapply not_initialized_message_apart; [|exact Hrun].
    eapply later_initialised; [|exact Hl]. discriminate.
  - reflexivity.
  - reflexivity.
  - rewrite length_app. cbn. lia.
Qed.

Lemma initialised_after_init_chroma_witness :
  (forall s,
      later (mkState (Some {[ lit "docs" := [] ]}) [] 0) s ->
      forall w file_path name override,
        fst (ingest_file w file_path name override s)
        <> Return (ErrorResponse (lit "Chroma client not initialized")))
  /\ add_calls (mkState (Some {[ lit "docs" := [] ]}) [] 0)
     = add_calls fresh_process
  /\ uuid_calls (mkState (Some {[ lit "docs" := [] ]}) [] 0)
     = uuid_calls fresh_process
  /\ length [lit "Initializing Chroma in persistent mode with path: /srv/db"]
     = S (length (@nil pystr)).
Proof.
  apply (initialised_after_init_chroma sample_host (Some (lit "db"))
           fresh_process []).
  vm_compute. reflexivity.
Defined.
